(** * pubsub-function: the log-backed registry store and its validation model

    A shallow embedding of

    - package [model] (key derivation, status lifecycle, webhook validation),
    - package [db], file [pulsardb.go] (the Pulsar-topic-backed store with its
      in-memory cache and the listener that replays the topic into it),
    - package [route], file [router.go] (the routes of a mode),

    followed by the properties of the specification, each stated over these
    definitions.

    Go strings are byte sequences: they are modelled by [string], whose
    characters are the bytes.  Functions of the Go standard library that the
    repository calls are either written out from their public definition
    (SHA-1, hexadecimal encoding, the ASCII paths of [strings.ToLower] and
    [strings.TrimSpace]) or kept as the fields of a class ([url.Parse],
    [json.Marshal], [json.Unmarshal], the Unicode paths of the [strings]
    functions), over which the model and its properties are stated. *)

From Stdlib Require Import ZArith Ascii String List Lia.
From stdpp Require Import gmap strings list fin_maps pretty.

Local Open Scope Z_scope.

(* ===================================================================== *)
(** * Go standard library: crypto/sha1 and encoding/hex                   *)
(* ===================================================================== *)

(** [crypto/sha1] computes SHA-1 as defined in FIPS 180-4 (RFC 3174).  Words
    are 32-bit unsigned integers, kept in [Z] with the wrap-around written
    out. *)
Module sha1.

Definition Size : nat := 20.
Definition BlockSize : nat := 64.

Definition mask32 : Z := 0xFFFFFFFF.

Definition add32 (x y : Z) : Z := Z.land (x + y) mask32.

(** [bits.RotateLeft32] *)
Definition rotl (n x : Z) : Z :=
  Z.land (Z.lor (Z.shiftl x n) (Z.shiftr x (32 - n))) mask32.

Definition not32 (x : Z) : Z := Z.lxor x mask32.

Definition init : Z * Z * Z * Z * Z :=
  (0x67452301, 0xEFCDAB89, 0x98BADCFE, 0x10325476, 0xC3D2E1F0).

(** The round function and constant of round [t] (0 <= t < 80). *)
Definition f (t : nat) (b c d : Z) : Z :=
  if (t <? 20)%nat then Z.lor (Z.land b c) (Z.land (not32 b) d)
  else if (t <? 40)%nat then Z.lxor b (Z.lxor c d)
  else if (t <? 60)%nat then
    Z.lor (Z.lor (Z.land b c) (Z.land b d)) (Z.land c d)
  else Z.lxor b (Z.lxor c d).

Definition K (t : nat) : Z :=
  if (t <? 20)%nat then 0x5A827999
  else if (t <? 40)%nat then 0x6ED9EBA1
  else if (t <? 60)%nat then 0x8F1BBCDC
  else 0xCA62C1D6.

(** Big-endian encodings. *)
Definition be_bytes (width : nat) (x : Z) : list Z :=
  map (fun i => Z.land (Z.shiftr x (8 * Z.of_nat i)) 0xFF) (rev (seq 0 width)).

Fixpoint be_word (bs : list Z) (acc : Z) : Z :=
  match bs with
  | [] => acc
  | b :: bs' => be_word bs' (Z.lor (Z.shiftl acc 8) b)
  end.

(** Message padding: a 1 bit, zeros up to 56 mod 64, and the bit length
    as a 64-bit big-endian integer. *)
Definition padding (len : nat) : list Z :=
  let r := (len mod 64)%nat in
  let zeros := if (r <? 56)%nat then (55 - r)%nat else (119 - r)%nat in
  0x80 :: repeat 0 zeros
    ++ be_bytes 8 (Z.land (8 * Z.of_nat len) 0xFFFFFFFFFFFFFFFF).

(** The sixteen message words of one 64-byte block. *)
Fixpoint words (n : nat) (bs : list Z) : list Z :=
  match n with
  | O => []
  | S n' => be_word (firstn 4 bs) 0 :: words n' (skipn 4 bs)
  end.

(** Eighty rounds over a sliding window of the message schedule: the head
    of [w] is W(t), and W(t+16) = rotl 1 (W(t+13) xor W(t+8) xor W(t+2)
    xor W(t)) is pushed at its end. *)
Fixpoint rounds (n t : nat) (w : list Z) (st : Z * Z * Z * Z * Z)
  : Z * Z * Z * Z * Z :=
  match n with
  | O => st
  | S n' =>
      let '(a, b, c, d, e) := st in
      let wt := nth 0 w 0 in
      let tmp := add32 (add32 (add32 (add32 (rotl 5 a) (f t b c d)) e) (K t)) wt in
      let next :=
        rotl 1 (Z.lxor (Z.lxor (nth 13 w 0) (nth 8 w 0))
                       (Z.lxor (nth 2 w 0) wt)) in
      rounds n' (S t) (tl w ++ [next]) (tmp, a, rotl 30 b, c, d)
  end.

Definition block (st : Z * Z * Z * Z * Z) (bs : list Z) : Z * Z * Z * Z * Z :=
  let '(h0, h1, h2, h3, h4) := st in
  let '(a, b, c, d, e) := rounds 80 0 (words 16 bs) st in
  (add32 h0 a, add32 h1 b, add32 h2 c, add32 h3 d, add32 h4 e).

Fixpoint blocks (n : nat) (st : Z * Z * Z * Z * Z) (bs : list Z)
  : Z * Z * Z * Z * Z :=
  match n with
  | O => st
  | S n' => blocks n' (block st (firstn 64 bs)) (skipn 64 bs)
  end.

(** [h := sha1.New(); h.Write(data); h.Sum(nil)] *)
Definition Sum (data : list Z) : list Z :=
  let padded := data ++ padding (length data) in
  let '(h0, h1, h2, h3, h4) :=
    blocks (length padded / 64)%nat init padded in
  be_bytes 4 h0 ++ be_bytes 4 h1 ++ be_bytes 4 h2 ++ be_bytes 4 h3
    ++ be_bytes 4 h4.

End sha1.

(** [[]byte(s)]: the bytes of a Go string. *)
Definition bytes_of_string (s : string) : list Z :=
  map (fun c => Z.of_N (N_of_ascii c)) (list_ascii_of_string s).

(** [encoding/hex]: the table "0123456789abcdef". *)
Definition hextable (n : Z) : ascii :=
  if n <? 10 then ascii_of_N (Z.to_N (48 + n))
  else ascii_of_N (Z.to_N (87 + n)).

(** [hex.EncodeToString] *)
Fixpoint hex_EncodeToString (src : list Z) : string :=
  match src with
  | [] => EmptyString
  | v :: rest =>
      String (hextable (Z.shiftr v 4))
        (String (hextable (Z.land v 0x0F)) (hex_EncodeToString rest))
  end.

(* ===================================================================== *)
(** * Package model: keys                                                 *)
(* ===================================================================== *)

(** Go's [error] values that the repository builds. *)
Inductive error : Type :=
| Errorf (message : string)        (* fmt.Errorf / errors.New *)
| ExternalError (message : string) (* an error returned by a library *).

(** [GenKey]: SHA-1 of the concatenation, in hexadecimal. *)
Definition GenKey (tenant functionName : string) : string :=
  hex_EncodeToString (sha1.Sum (bytes_of_string (tenant ++ functionName)%string)).

(** [GetKeyFromNames] *)
Definition GetKeyFromNames (tenant functionName : string) : string * option error :=
  (GenKey tenant functionName, None).

(* ===================================================================== *)
(** * Package model: documents                                            *)
(* ===================================================================== *)

Local Open Scope string_scope.

(** [time.Time], an instant; [time.Time{}] is the zero instant. *)
Definition time_Time : Type := Z.
Definition time_zero : time_Time := 0.

(** [type Status int] with its four named values.  The type is an integer:
    a decoded document may carry any other number. *)
Definition Status : Type := Z.
Definition Deactivated : Status := 0.
Definition Activated : Status := 1.
Definition Suspended : Status := 2.
Definition Deleted : Status := 3.

Record WebhookConfig : Type := {
  URL : string;
  Headers : list string;
  Subscription : string;
  SubscriptionType : string;
  InitialPosition : string;
  WebhookStatus : Status;
  wh_CreatedAt : time_Time;
  wh_UpdatedAt : time_Time;
  wh_DeletedAt : time_Time
}.

Record TopicConfig : Type := {
  TopicFullName : string;
  PulsarURL : string;
  Token : string;
  Tenant : string;
  Key : string;
  Notes : string;
  TopicStatus : Status;
  Webhooks : list WebhookConfig;
  tc_CreatedAt : time_Time;
  tc_UpdatedAt : time_Time
}.

Record FunctionTopic : Type := {
  ft_TopicFullName : string;
  ft_PulsarURL : string;
  ft_Token : string;
  ft_Tenant : string;
  ft_Key : string;
  ft_Subscription : string;
  ft_SubscriptionType : string;
  ft_KeySharedPolicy : string;
  ft_InitialPosition : string
}.

Record FunctionConfig : Type := {
  fc_Name : string;
  fc_ID : string;
  fc_Tenant : string;
  FunctionStatus : Status;
  FunctionFilePath : string;
  LanguagePack : string;
  Parallelism : Z;
  WebhookURLs : list string;
  InputTopic : FunctionTopic;
  OutputTopic : FunctionTopic;
  LogTopic : FunctionTopic;
  TriggerType : string;
  Cron : string;
  fc_CreatedAt : time_Time;
  fc_UpdatedAt : time_Time;
  fc_DeletedAt : time_Time
}.

(** [FunctionTopic{}] and [FunctionConfig{}], the zero values. *)
Definition FunctionTopic_zero : FunctionTopic :=
  {| ft_TopicFullName := ""; ft_PulsarURL := ""; ft_Token := "";
     ft_Tenant := ""; ft_Key := ""; ft_Subscription := "";
     ft_SubscriptionType := ""; ft_KeySharedPolicy := "";
     ft_InitialPosition := "" |}.

Definition FunctionConfig_zero : FunctionConfig :=
  {| fc_Name := ""; fc_ID := ""; fc_Tenant := ""; FunctionStatus := 0;
     FunctionFilePath := ""; LanguagePack := ""; Parallelism := 0;
     WebhookURLs := []; InputTopic := FunctionTopic_zero;
     OutputTopic := FunctionTopic_zero; LogTopic := FunctionTopic_zero;
     TriggerType := ""; Cron := ""; fc_CreatedAt := time_zero;
     fc_UpdatedAt := time_zero; fc_DeletedAt := time_zero |}.

(** Field assignments [cfg.F = x] used by the store. *)
Definition set_ID (x : string) (c : FunctionConfig) : FunctionConfig :=
  {| fc_Name := fc_Name c; fc_ID := x; fc_Tenant := fc_Tenant c;
     FunctionStatus := FunctionStatus c;
     FunctionFilePath := FunctionFilePath c; LanguagePack := LanguagePack c;
     Parallelism := Parallelism c; WebhookURLs := WebhookURLs c;
     InputTopic := InputTopic c; OutputTopic := OutputTopic c;
     LogTopic := LogTopic c; TriggerType := TriggerType c; Cron := Cron c;
     fc_CreatedAt := fc_CreatedAt c; fc_UpdatedAt := fc_UpdatedAt c;
     fc_DeletedAt := fc_DeletedAt c |}.

Definition set_Tenant (x : string) (c : FunctionConfig) : FunctionConfig :=
  {| fc_Name := fc_Name c; fc_ID := fc_ID c; fc_Tenant := x;
     FunctionStatus := FunctionStatus c;
     FunctionFilePath := FunctionFilePath c; LanguagePack := LanguagePack c;
     Parallelism := Parallelism c; WebhookURLs := WebhookURLs c;
     InputTopic := InputTopic c; OutputTopic := OutputTopic c;
     LogTopic := LogTopic c; TriggerType := TriggerType c; Cron := Cron c;
     fc_CreatedAt := fc_CreatedAt c; fc_UpdatedAt := fc_UpdatedAt c;
     fc_DeletedAt := fc_DeletedAt c |}.

Definition set_FunctionStatus (x : Status) (c : FunctionConfig) : FunctionConfig :=
  {| fc_Name := fc_Name c; fc_ID := fc_ID c; fc_Tenant := fc_Tenant c;
     FunctionStatus := x;
     FunctionFilePath := FunctionFilePath c; LanguagePack := LanguagePack c;
     Parallelism := Parallelism c; WebhookURLs := WebhookURLs c;
     InputTopic := InputTopic c; OutputTopic := OutputTopic c;
     LogTopic := LogTopic c; TriggerType := TriggerType c; Cron := Cron c;
     fc_CreatedAt := fc_CreatedAt c; fc_UpdatedAt := fc_UpdatedAt c;
     fc_DeletedAt := fc_DeletedAt c |}.

Definition set_CreatedAt (x : time_Time) (c : FunctionConfig) : FunctionConfig :=
  {| fc_Name := fc_Name c; fc_ID := fc_ID c; fc_Tenant := fc_Tenant c;
     FunctionStatus := FunctionStatus c;
     FunctionFilePath := FunctionFilePath c; LanguagePack := LanguagePack c;
     Parallelism := Parallelism c; WebhookURLs := WebhookURLs c;
     InputTopic := InputTopic c; OutputTopic := OutputTopic c;
     LogTopic := LogTopic c; TriggerType := TriggerType c; Cron := Cron c;
     fc_CreatedAt := x; fc_UpdatedAt := fc_UpdatedAt c;
     fc_DeletedAt := fc_DeletedAt c |}.

Definition set_UpdatedAt (x : time_Time) (c : FunctionConfig) : FunctionConfig :=
  {| fc_Name := fc_Name c; fc_ID := fc_ID c; fc_Tenant := fc_Tenant c;
     FunctionStatus := FunctionStatus c;
     FunctionFilePath := FunctionFilePath c; LanguagePack := LanguagePack c;
     Parallelism := Parallelism c; WebhookURLs := WebhookURLs c;
     InputTopic := InputTopic c; OutputTopic := OutputTopic c;
     LogTopic := LogTopic c; TriggerType := TriggerType c; Cron := Cron c;
     fc_CreatedAt := fc_CreatedAt c; fc_UpdatedAt := x;
     fc_DeletedAt := fc_DeletedAt c |}.

(* ===================================================================== *)
(** * Go standard library: the ASCII paths of package strings             *)
(* ===================================================================== *)

Definition byte_val (c : ascii) : Z := Z.of_N (N_of_ascii c).

(** [c >= utf8.RuneSelf] *)
Definition nonASCII (c : ascii) : bool := (128 <=? byte_val c)%Z.

Definition isUpper (c : ascii) : bool :=
  ((65 <=? byte_val c) && (byte_val c <=? 90))%Z.

(** [c += 'a' - 'A'] on an upper-case letter. *)
Definition lower_byte (c : ascii) : ascii :=
  if isUpper c then ascii_of_N (Z.to_N (byte_val c + 32)) else c.

Fixpoint string_map (g : ascii -> ascii) (s : string) : string :=
  match s with
  | EmptyString => EmptyString
  | String c s' => String (g c) (string_map g s')
  end.

Fixpoint string_exists (p : ascii -> bool) (s : string) : bool :=
  match s with
  | EmptyString => false
  | String c s' => p c || string_exists p s'
  end.

(** The table [asciiSpace]: tab, newline, vertical tab, form feed, carriage
    return and space. *)
Definition asciiSpace (c : ascii) : bool :=
  let v := byte_val c in
  ((v =? 9) || (v =? 10) || (v =? 11) || (v =? 12) || (v =? 13) || (v =? 32))%Z.

(** One scan of [strings.TrimSpace]: skip ASCII spaces; stop at the first
    other byte, and say whether that byte is outside ASCII. *)
Fixpoint skip_space (s : list ascii) : list ascii * bool :=
  match s with
  | [] => ([], false)
  | c :: s' =>
      if nonASCII c then (s, true)
      else if asciiSpace c then skip_space s'
      else (s, false)
  end.

(* ===================================================================== *)
(** * Package model: validation                                           *)
(* ===================================================================== *)

(** [pulsar.SubscriptionType] and [pulsar.SubscriptionInitialPosition] of
    pulsar-client-go, as the integers of their [iota] declarations. *)
Definition pulsar_Exclusive : Z := 0.
Definition pulsar_Shared : Z := 1.
Definition pulsar_Failover : Z := 2.
Definition pulsar_KeyShared : Z := 3.
Definition pulsar_SubscriptionPositionLatest : Z := 0.
Definition pulsar_SubscriptionPositionEarliest : Z := 1.

(** The two fields of [url.URL] that the repository reads. *)
Record url_URL : Type := { Scheme : string; Host : string }.

(** What the repository takes from Go's standard library and is not written
    out in this file. *)
Class GoLibrary : Type := {
  (** [url.Parse] of net/url: [inl u] for [(u, nil)], [inr e] for
      [(nil, e)]. *)
  url_Parse : string -> url_URL + error;
  (** [strings.Map(unicode.ToLower, s)], the path [strings.ToLower] takes on
      a string with a byte outside ASCII. *)
  unicode_ToLower : string -> string;
  (** [strings.TrimFunc(s, unicode.IsSpace)], the path [strings.TrimSpace]
      takes when it meets a byte outside ASCII. *)
  unicode_TrimSpace : string -> string;
  (** The byte strings that [json.Marshal] produces for a [FunctionConfig]
      and that [json.Unmarshal] decodes into one. *)
  Payload : Type;
  json_Marshal : FunctionConfig -> Payload + error;
  json_Unmarshal : Payload -> FunctionConfig + error
}.

Section model.

Context `{GoLibrary}.

(** [strings.ToLower] *)
Definition strings_ToLower (s : string) : string :=
  if string_exists nonASCII s then unicode_ToLower s
  else if string_exists isUpper s then string_map lower_byte s
  else s.

(** [strings.TrimSpace] *)
Definition strings_TrimSpace (s : string) : string :=
  let '(s1, slow) := skip_space (list_ascii_of_string s) in
  if slow then unicode_TrimSpace (string_of_list_ascii s1)
  else
    let '(r, slow') := skip_space (rev s1) in
    if slow' then unicode_TrimSpace (string_of_list_ascii (rev r))
    else string_of_list_ascii (rev r).

(** [StringToStatus] *)
Definition StringToStatus (status : string) : Status :=
  let l := strings_ToLower status in
  if String.eqb l "activated" then Activated
  else if String.eqb l "suspended" then Suspended
  else if String.eqb l "deleted" then Deleted
  else Deactivated.

(** [NewTopicConfig]; [now1] and [now2] are its two readings of the
    clock. *)
Definition NewTopicConfig (now1 now2 : time_Time)
    (topicFullName pulsarURL token : string) : TopicConfig * option error :=
  let '(key, err) := GetKeyFromNames topicFullName pulsarURL in
  match err with
  | Some e =>
      ({| TopicFullName := topicFullName; PulsarURL := pulsarURL;
          Token := token; Tenant := ""; Key := key; Notes := "";
          TopicStatus := 0%Z; Webhooks := [];
          tc_CreatedAt := time_zero; tc_UpdatedAt := time_zero |}, Some e)
  | None =>
      ({| TopicFullName := topicFullName; PulsarURL := pulsarURL;
          Token := token; Tenant := ""; Key := key; Notes := "";
          TopicStatus := 0%Z; Webhooks := [];
          tc_CreatedAt := now1; tc_UpdatedAt := now2 |}, None)
  end.

(** [GetInitialPosition] *)
Definition GetInitialPosition (pos : string) : Z * option error :=
  let l := strings_ToLower pos in
  if String.eqb l "latest" || String.eqb l "" then
    (pulsar_SubscriptionPositionLatest, None)
  else if String.eqb l "earliest" then
    (pulsar_SubscriptionPositionEarliest, None)
  else ((-1)%Z, Some (Errorf ("invalid subscription initial position " ++ pos))).

(** [GetSubscriptionType] *)
Definition GetSubscriptionType (subType : string) : Z * option error :=
  let l := strings_ToLower subType in
  if String.eqb l "exclusive" || String.eqb l "" then (pulsar_Exclusive, None)
  else if String.eqb l "shared" then (pulsar_Shared, None)
  else if String.eqb l "keyshared" then (pulsar_KeyShared, None)
  else if String.eqb l "failover" then (pulsar_Failover, None)
  else ((-1)%Z, Some (Errorf ("unsupported subscription type " ++ subType))).

(** [IsURL] *)
Definition IsURL (str : string) : bool :=
  match url_Parse str with
  | inl u => negb (String.eqb (Scheme u) "") && negb (String.eqb (Host u) "")
  | inr _ => false
  end.

(** [exclusiveSubs[name]] on a [map[string]bool]: [false] when absent. *)
Definition seen (exclusiveSubs : gmap string bool) (name : string) : bool :=
  default false (exclusiveSubs !! name).

(** The body of the loop of [ValidateWebhookConfig] for one webhook: the
    error it returns with, if any, and the set of exclusive subscription
    names after it. *)
Definition ValidateWebhookConfig_body
    (exclusiveSubs : gmap string bool) (wh : WebhookConfig)
  : option error * gmap string bool :=
  if negb (IsURL (URL wh)) then
    (Some (Errorf ("not a URL " ++ URL wh)), exclusiveSubs)
  else if String.eqb (strings_TrimSpace (Subscription wh)) "" then
    (Some (Errorf "subscription name is missing"), exclusiveSubs)
  else
    match GetSubscriptionType (SubscriptionType wh) with
    | (subType, None) =>
        if (subType =? pulsar_Exclusive)%Z
           && seen exclusiveSubs (Subscription wh) then
          (Some (Errorf ("exclusive subscription " ++ Subscription wh
                         ++ " cannot be shared between multiple webhooks")),
           exclusiveSubs)
        else
          let exclusiveSubs' :=
            if (subType =? pulsar_Exclusive)%Z
            then <[Subscription wh := true]> exclusiveSubs
            else exclusiveSubs in
          match GetInitialPosition (InitialPosition wh) with
          | (_, Some err) => (Some err, exclusiveSubs')
          | (_, None) => (None, exclusiveSubs')
          end
    | (_, Some err) => (Some err, exclusiveSubs)
    end.

(** [for _, wh := range whs { ... }] *)
Fixpoint ValidateWebhookConfig_loop
    (exclusiveSubs : gmap string bool) (whs : list WebhookConfig)
  : option error :=
  match whs with
  | [] => None
  | wh :: rest =>
      match ValidateWebhookConfig_body exclusiveSubs wh with
      | (Some err, _) => Some err
      | (None, exclusiveSubs') => ValidateWebhookConfig_loop exclusiveSubs' rest
      end
  end.

(** [ValidateWebhookConfig] *)
Definition ValidateWebhookConfig (whs : list WebhookConfig) : option error :=
  ValidateWebhookConfig_loop ∅ whs.

(** [ValidateTopicConfig] *)
Definition ValidateTopicConfig (top : TopicConfig) : string * option error :=
  match ValidateWebhookConfig (Webhooks top) with
  | Some err => ("", Some err)
  | None => GetKeyFromNames (TopicFullName top) (PulsarURL top)
  end.

End model.

(* ===================================================================== *)
(** * Package db: the Pulsar-backed store (pulsardb.go)                   *)
(* ===================================================================== *)

(** What [pulsardb.go] uses from the rest of package db.  These three are
    declared in another file of the package; the store is modelled over
    them. *)
Class PackageDb : Type := {
  (** [getKey(functionCfg)]: the key of a document, or an error. *)
  getKey : FunctionConfig -> string * option error;
  (** The messages of the two store errors. *)
  DocAlreadyExisted : string;
  DocNotFound : string
}.

(** [pulsar.ProducerMessage], with the two fields the store fills in. *)
Record ProducerMessage `{GoLibrary} : Type := {
  msg_Payload : Payload;
  msg_Key : string
}.

(** [PulsarHandler].  [topics] is the cache.  [topicsLock] is [true] while
    the mutex is locked.  [producer] stands for the producer by the
    messages it has sent with success, oldest first: the store's own part of
    the log. *)
Record PulsarHandler `{GoLibrary} : Type := {
  topics : gmap string FunctionConfig;
  topicsLock : bool;
  producer : list ProducerMessage
}.

(** Addresses of Go variables, for the pointers that [Load] returns. *)
Definition loc : Type := nat.

(** What [reader.Next] delivers. *)
Inductive ReaderNext `{GoLibrary} : Type :=
| Next_msg (payload : Payload)
| Next_err (e : error).

(** How a run of [dbListener] stands once the reader has delivered all it
    had. *)
Inductive Listener : Type :=
| Reading                (* waiting in [reader.Next] *)
| Blocked                (* [s.topicsLock.Lock()] does not return *)
| Terminated (e : error) (* returned [e]; the termination signal is sent *)
| Fatal                  (* unlock of an unlocked mutex *).

Section db.

Context `{GoLibrary} `{PackageDb}.

Definition set_topics (m : gmap string FunctionConfig) (s : PulsarHandler)
  : PulsarHandler :=
  {| topics := m; topicsLock := topicsLock s; producer := producer s |}.

Definition set_topicsLock (b : bool) (s : PulsarHandler) : PulsarHandler :=
  {| topics := topics s; topicsLock := b; producer := producer s |}.

(** [s.producer.Send(ctx, &msg)] returning [nil]. *)
Definition sent (msg : ProducerMessage) (s : PulsarHandler) : PulsarHandler :=
  {| topics := topics s; topicsLock := topicsLock s;
     producer := producer s ++ [msg] |}.

(** [Init].  [newClient] and [createProducer] are the errors of
    [pulsardriver.NewPulsarClient] and [createProducer].  The listener it
    starts is [supervisor] below. *)
Definition Init (newClient createProducer : option error)
  : option error * PulsarHandler :=
  let s := {| topics := ∅; topicsLock := false; producer := [] |} in
  match newClient with
  | Some err => (Some err, s)
  | None =>
      match createProducer with
      | Some err => (Some err, s)
      | None => (None, s)
      end
  end.

(** The cache update of one decoded record in [dbListener]:
    [if doc.FunctionStatus != model.Deleted { s.topics[doc.ID] = doc }
     else { delete(s.topics, doc.ID) }]. *)
Definition foldRecord (doc : FunctionConfig) (m : gmap string FunctionConfig)
  : gmap string FunctionConfig :=
  if negb (FunctionStatus doc =? Deleted)%Z then <[fc_ID doc := doc]> m
  else delete (fc_ID doc) m.

(** The deferred [s.topicsLock.Unlock()] calls, run when [dbListener]
    returns.  Unlocking an unlocked mutex is a fatal error. *)
Fixpoint run_deferred (deferred : nat) (s : PulsarHandler) : option PulsarHandler :=
  match deferred with
  | O => Some s
  | S n =>
      if topicsLock s then run_deferred n (set_topicsLock false s) else None
  end.

(** The loop of [dbListener] over what the reader delivers.  Each decoded
    record locks [topicsLock] and defers the unlock to the return of
    [dbListener]; [deferred] counts the calls deferred so far. *)
Fixpoint dbListener_loop (stream : list ReaderNext) (deferred : nat)
    (s : PulsarHandler) : Listener * PulsarHandler :=
  match stream with
  | [] => (Reading, s)
  | Next_err err :: _ =>
      match run_deferred deferred s with
      | Some s' => (Terminated err, s')
      | None => (Fatal, s)
      end
  | Next_msg payload :: rest =>
      match json_Unmarshal payload with
      | inr _ => dbListener_loop rest deferred s
      | inl doc =>
          if topicsLock s then (Blocked, s)
          else
            let s := set_topicsLock true s in
            let s := set_topics (foldRecord doc (topics s)) s in
            dbListener_loop rest (S deferred) s
      end
  end.

(** [dbListener]; [createReader] is the error of [s.client.CreateReader]. *)
Definition dbListener (createReader : option error) (stream : list ReaderNext)
    (s : PulsarHandler) : Listener * PulsarHandler :=
  match createReader with
  | Some err => (Terminated err, s)
  | None => dbListener_loop stream 0 s
  end.

(** The goroutine of [Init] that starts [dbListener] and starts it again each
    time it signals its termination.  [runs] lists, for each start, the
    outcome of [CreateReader] and what the reader delivers from the earliest
    message on. *)
Fixpoint supervisor (runs : list (option error * list ReaderNext))
    (s : PulsarHandler) : Listener * PulsarHandler :=
  match runs with
  | [] => (Reading, s)
  | (createReader, stream) :: later =>
      match dbListener createReader stream s with
      | (Terminated err, s') =>
          match later with
          | [] => (Terminated err, s')
          | _ => supervisor later s'
          end
      | stuck => stuck
      end
  end.

(** [updateCacheAndPulsar]; [send] is the error of [s.producer.Send]. *)
Definition updateCacheAndPulsar (send : option error)
    (functionCfg : FunctionConfig) (s : PulsarHandler)
  : (string * option error) * PulsarHandler :=
  match json_Marshal functionCfg with
  | inr err => (("", Some err), s)
  | inl data =>
      let msg := {| msg_Payload := data; msg_Key := fc_ID functionCfg |} in
      match send with
      | Some err => (("", Some err), s)
      | None =>
          let s := sent msg s in
          let s := set_topics (<[fc_ID functionCfg := functionCfg]> (topics s)) s in
          ((fc_ID functionCfg, None), s)
      end
  end.

(** [Create]; [now] is [time.Now()].  The assignments to [functionCfg] go
    through the caller's pointer; the store keeps a copy. *)
Definition Create (now : time_Time) (send : option error)
    (functionCfg : FunctionConfig) (s : PulsarHandler)
  : (string * option error) * PulsarHandler :=
  match getKey functionCfg with
  | (key, Some err) => ((key, Some err), s)
  | (key, None) =>
      match topics s !! key with
      | Some _ => ((key, Some (Errorf DocAlreadyExisted)), s)
      | None =>
          let functionCfg := set_ID key functionCfg in
          let functionCfg := set_CreatedAt now functionCfg in
          let functionCfg := set_UpdatedAt (fc_CreatedAt functionCfg) functionCfg in
          updateCacheAndPulsar send functionCfg s
      end
  end.

(** [GetByKey]: the document the returned pointer refers to, and the
    error. *)
Definition GetByKey (hashedTopicKey : string) (s : PulsarHandler)
  : FunctionConfig * option error :=
  match topics s !! hashedTopicKey with
  | Some v => (v, None)
  | None => (FunctionConfig_zero, Some (Errorf DocNotFound))
  end.

(** [GetByTopic] *)
Definition GetByTopic (tenant functionName : string) (s : PulsarHandler)
  : FunctionConfig * option error :=
  match GetKeyFromNames tenant functionName with
  | (_, Some err) => (FunctionConfig_zero, Some err)
  | (key, None) => GetByKey key s
  end.

(** The loop of [Load].  [v] is the address of the loop variable.  The loop
    is modelled in the Go of this code, older than 1.22, where a [for] loop
    has one variable for all its turns: each turn stores the visited document
    in it and appends its address to [results]. *)
Fixpoint Load_loop (v : loc) (visit : list (string * FunctionConfig))
    (results : list loc) (heap : gmap loc FunctionConfig)
  : list loc * gmap loc FunctionConfig :=
  match visit with
  | [] => (results, heap)
  | (_, doc) :: rest => Load_loop v rest (results ++ [v]) (<[v := doc]> heap)
  end.

(** The same loop from Go 1.22 on, where each turn has a variable of its own,
    at the addresses [next], [next + 1], and so on; kept for comparison. *)
Fixpoint Load_loop_per_turn (next : loc) (visit : list (string * FunctionConfig))
    (results : list loc) (heap : gmap loc FunctionConfig)
  : list loc * gmap loc FunctionConfig :=
  match visit with
  | [] => (results, heap)
  | (_, doc) :: rest =>
      Load_loop_per_turn (S next) rest (results ++ [next]) (<[next := doc]> heap)
  end.

(** [Load].  [visit] is the order in which [range s.topics] visits the cache,
    which Go leaves unspecified; the result is the slice of pointers and the
    variables they point to. *)
Definition Load (visit : list (string * FunctionConfig))
  : (list loc * gmap loc FunctionConfig) * option error :=
  let v : loc := 0%nat in
  (Load_loop v visit [] {[ v := FunctionConfig_zero ]}, None).

(** [visit] is an order in which [range s.topics] can go through the
    cache. *)
Definition range_order (s : PulsarHandler)
    (visit : list (string * FunctionConfig)) : Prop :=
  visit ≡ₚ map_to_list (topics s).

(** The documents a slice of pointers refers to. *)
Definition deref (heap : gmap loc FunctionConfig) (ps : list loc)
  : list (option FunctionConfig) :=
  map (fun p => heap !! p) ps.

(** [Update] *)
Definition Update (now : time_Time) (send : option error)
    (functionCfg : FunctionConfig) (s : PulsarHandler)
  : (string * option error) * PulsarHandler :=
  match getKey functionCfg with
  | (key, Some err) => ((key, Some err), s)
  | (key, None) =>
      match topics s !! key with
      | None => Create now send functionCfg s
      | Some v =>
          let v := set_Tenant (fc_Tenant functionCfg) v in
          let v := set_FunctionStatus (FunctionStatus functionCfg) v in
          let v := set_UpdatedAt now v in
          updateCacheAndPulsar send functionCfg s
      end
  end.

(** [DeleteByKey] *)
Definition DeleteByKey (send : option error) (hashedTopicKey : string)
    (s : PulsarHandler) : (string * option error) * PulsarHandler :=
  match topics s !! hashedTopicKey with
  | None => (("", Some (Errorf DocNotFound)), s)
  | Some v =>
      let v := set_FunctionStatus Deleted v in
      match json_Marshal v with
      | inr err => (("", Some err), s)
      | inl data =>
          let msg := {| msg_Payload := data; msg_Key := fc_ID v |} in
          match send with
          | Some err => (("", Some err), s)
          | None =>
              let s := sent msg s in
              let s := set_topics (delete (fc_ID v) (topics s)) s in
              ((hashedTopicKey, None), s)
          end
      end
  end.

(** [Delete] *)
Definition Delete (send : option error) (tenant functionName : string)
    (s : PulsarHandler) : (string * option error) * PulsarHandler :=
  match GetKeyFromNames tenant functionName with
  | (_, Some err) => (("", Some err), s)
  | (key, None) => DeleteByKey send key s
  end.

End db.

(* ===================================================================== *)
(** * Instances for running the model                                     *)
(* ===================================================================== *)

(** A parser for URLs of the plain shape [scheme://host/path], on which
    [url.Parse] returns that scheme and that host; a string without [://],
    such as [not-a-url], is a path with empty scheme and host. *)
Definition plain_url_Parse (rawURL : string) : url_URL + error :=
  match String.index 0 "://" rawURL with
  | None => inl {| Scheme := ""; Host := "" |}
  | Some i =>
      let rest := substring (i + 3) (String.length rawURL - (i + 3)) rawURL in
      let host :=
        match String.index 0 "/" rest with
        | None => rest
        | Some j => substring 0 j rest
        end in
      inl {| Scheme := substring 0 i rawURL; Host := host |}
  end.

(** The library on ASCII inputs and plain URLs, with a document as its own
    encoding. *)
Definition ascii_library : GoLibrary :=
  {| url_Parse := plain_url_Parse;
     unicode_ToLower := fun s => s;
     unicode_TrimSpace := fun s => s;
     Payload := FunctionConfig;
     json_Marshal := fun doc => inl doc;
     json_Unmarshal := fun data => inl data |}.

(** Modelled from the spec: [getKey], [DocAlreadyExisted] and [DocNotFound]
    of package db are declared outside [pulsardb.go].  The specification
    derives the key of a document from its (tenant, name), as [GetByTopic]
    and [Delete] do, and names the two errors AlreadyExists and NotFound. *)
Definition names_db : PackageDb :=
  {| getKey := fun cfg => GetKeyFromNames (fc_Tenant cfg) (fc_Name cfg);
     DocAlreadyExisted := "AlreadyExists";
     DocNotFound := "NotFound" |}.

(** A webhook with the given URL, subscription name, subscription type and
    initial position. *)
Definition webhook (url sub subType pos : string) : WebhookConfig :=
  {| URL := url; Headers := []; Subscription := sub;
     SubscriptionType := subType; InitialPosition := pos;
     WebhookStatus := Activated; wh_CreatedAt := time_zero;
     wh_UpdatedAt := time_zero; wh_DeletedAt := time_zero |}.

(** A function document with the given tenant, name, ID and status. *)
Definition function_doc (tenant name id : string) (status : Status)
  : FunctionConfig :=
  set_FunctionStatus status
    (set_ID id (set_Tenant tenant
      {| fc_Name := name; fc_ID := ""; fc_Tenant := ""; FunctionStatus := 0%Z;
         FunctionFilePath := ""; LanguagePack := ""; Parallelism := 0%Z;
         WebhookURLs := []; InputTopic := FunctionTopic_zero;
         OutputTopic := FunctionTopic_zero; LogTopic := FunctionTopic_zero;
         TriggerType := ""; Cron := ""; fc_CreatedAt := time_zero;
         fc_UpdatedAt := time_zero; fc_DeletedAt := time_zero |})).

(** A topic with no webhooks. *)
Definition bare_topic (topicFullName pulsarURL tenant : string) : TopicConfig :=
  {| TopicFullName := topicFullName; PulsarURL := pulsarURL; Token := "";
     Tenant := tenant; Key := ""; Notes := ""; TopicStatus := Deactivated;
     Webhooks := []; tc_CreatedAt := time_zero; tc_UpdatedAt := time_zero |}.

(* ===================================================================== *)
(** * Vocabulary of the statements                                        *)
(* ===================================================================== *)

Fixpoint string_forall (p : ascii -> bool) (s : string) : bool :=
  match s with
  | EmptyString => true
  | String c s' => p c && string_forall p s'
  end.

(** A digit or one of the letters a to f. *)
Definition lower_hex (c : ascii) : bool :=
  let v := byte_val c in
  ((48 <=? v) && (v <=? 57) || (97 <=? v) && (v <=? 102))%Z.

Definition is_byte (b : Z) : Prop := (0 <= b < 256)%Z.

(** The five validation errors, by the names the specification gives them,
    with the messages [ValidateWebhookConfig] builds. *)
Definition InvalidURL (url : string) : error :=
  Errorf ("not a URL " ++ url).
Definition MissingSubscription : error :=
  Errorf "subscription name is missing".
Definition DuplicateExclusiveSubscription (sub : string) : error :=
  Errorf ("exclusive subscription " ++ sub
          ++ " cannot be shared between multiple webhooks").
Definition UnsupportedSubscriptionType (subType : string) : error :=
  Errorf ("unsupported subscription type " ++ subType).
Definition InvalidInitialPosition (pos : string) : error :=
  Errorf ("invalid subscription initial position " ++ pos).

Section model_vocabulary.

Context `{GoLibrary}.

(** The subscription type of [wh] resolves to exclusive. *)
Definition resolves_exclusive (wh : WebhookConfig) : Prop :=
  GetSubscriptionType (SubscriptionType wh) = (pulsar_Exclusive, None).

(** The subscription type is one of the four, whatever the case of its
    letters, or empty. *)
Definition known_type (subType : string) : Prop :=
  let l := strings_ToLower subType in
  l = "exclusive" \/ l = "" \/ l = "shared" \/ l = "keyshared" \/ l = "failover".

(** The initial position is one of the two, whatever the case of its
    letters, or empty. *)
Definition known_position (pos : string) : Prop :=
  let l := strings_ToLower pos in
  l = "latest" \/ l = "" \/ l = "earliest".

(** The four rules on one webhook. *)
Definition well_formed (wh : WebhookConfig) : Prop :=
  IsURL (URL wh) = true
  /\ strings_TrimSpace (Subscription wh) <> ""
  /\ known_type (SubscriptionType wh)
  /\ known_position (InitialPosition wh).

(** Some earlier webhook of [pre] is exclusive with subscription name
    [name]. *)
Definition seen_exclusive (pre : list WebhookConfig) (name : string) : Prop :=
  exists wh', In wh' pre /\ resolves_exclusive wh' /\ Subscription wh' = name.

(** Somewhere in the list, an exclusive webhook has the subscription name of
    an earlier exclusive webhook. *)
Definition collision (whs : list WebhookConfig) : Prop :=
  exists pre wh post,
    whs = (pre ++ wh :: post)%list
    /\ resolves_exclusive wh
    /\ seen_exclusive pre (Subscription wh).

(** The same, at a webhook the loop gets to and whose URL and name pass:
    no webhook before it makes [ValidateWebhookConfig] return. *)
Definition collision_reached (whs : list WebhookConfig) (name : string) : Prop :=
  exists pre wh post,
    whs = (pre ++ wh :: post)%list
    /\ ValidateWebhookConfig pre = None
    /\ IsURL (URL wh) = true
    /\ strings_TrimSpace (Subscription wh) <> ""
    /\ resolves_exclusive wh
    /\ Subscription wh = name
    /\ seen_exclusive pre name.

(** The set of exclusive names after the loop has gone through [whs]. *)
Fixpoint exclusiveSubs_after (exclusiveSubs : gmap string bool)
    (whs : list WebhookConfig) : gmap string bool :=
  match whs with
  | [] => exclusiveSubs
  | wh :: rest =>
      exclusiveSubs_after (snd (ValidateWebhookConfig_body exclusiveSubs wh)) rest
  end.

(** The set of exclusive names after the body of the loop has accepted
    [wh]. *)
Inductive exclusiveSubs_next (exclusiveSubs : gmap string bool)
    (wh : WebhookConfig) : gmap string bool -> Prop :=
| next_exclusive :
    resolves_exclusive wh ->
    exclusiveSubs_next exclusiveSubs wh (<[Subscription wh := true]> exclusiveSubs)
| next_other :
    ~ resolves_exclusive wh ->
    exclusiveSubs_next exclusiveSubs wh exclusiveSubs.

(** The six ways through the body of the loop, in the order of its
    checks. *)
Inductive body_outcome (exclusiveSubs : gmap string bool) (wh : WebhookConfig)
  : option error * gmap string bool -> Prop :=
| body_InvalidURL :
    IsURL (URL wh) = false ->
    body_outcome exclusiveSubs wh (Some (InvalidURL (URL wh)), exclusiveSubs)
| body_MissingSubscription :
    IsURL (URL wh) = true ->
    strings_TrimSpace (Subscription wh) = "" ->
    body_outcome exclusiveSubs wh (Some MissingSubscription, exclusiveSubs)
| body_UnsupportedSubscriptionType :
    IsURL (URL wh) = true ->
    strings_TrimSpace (Subscription wh) <> "" ->
    ~ known_type (SubscriptionType wh) ->
    body_outcome exclusiveSubs wh
      (Some (UnsupportedSubscriptionType (SubscriptionType wh)), exclusiveSubs)
| body_DuplicateExclusiveSubscription :
    IsURL (URL wh) = true ->
    strings_TrimSpace (Subscription wh) <> "" ->
    resolves_exclusive wh ->
    seen exclusiveSubs (Subscription wh) = true ->
    body_outcome exclusiveSubs wh
      (Some (DuplicateExclusiveSubscription (Subscription wh)), exclusiveSubs)
| body_InvalidInitialPosition exclusiveSubs' :
    IsURL (URL wh) = true ->
    strings_TrimSpace (Subscription wh) <> "" ->
    known_type (SubscriptionType wh) ->
    ~ (resolves_exclusive wh /\ seen exclusiveSubs (Subscription wh) = true) ->
    exclusiveSubs_next exclusiveSubs wh exclusiveSubs' ->
    ~ known_position (InitialPosition wh) ->
    body_outcome exclusiveSubs wh
      (Some (InvalidInitialPosition (InitialPosition wh)), exclusiveSubs')
| body_accepts exclusiveSubs' :
    well_formed wh ->
    ~ (resolves_exclusive wh /\ seen exclusiveSubs (Subscription wh) = true) ->
    exclusiveSubs_next exclusiveSubs wh exclusiveSubs' ->
    body_outcome exclusiveSubs wh (None, exclusiveSubs').

End model_vocabulary.

(* ===================================================================== *)
(** * Inputs of the examples                                              *)
(* ===================================================================== *)

(** A topic of tenant [t1] with no webhooks. *)
Definition events_topic : TopicConfig :=
  bare_topic "persistent://t1/ns/events" "pulsar://broker:6650" "t1".

(** Two exclusive webhooks with the subscription name [sub1]. *)
Definition two_exclusive_sub1 : list WebhookConfig :=
  [ webhook "https://example.com/hook" "sub1" "exclusive" "latest";
    webhook "https://example.com/other" "sub1" "Exclusive" "" ].

(** A shared and an exclusive webhook with different subscription names. *)
Definition shared_and_exclusive : list WebhookConfig :=
  [ webhook "https://example.com/hook" "sub1" "shared" "latest";
    webhook "https://example.com/other" "sub2" "exclusive" "earliest" ].

(** Two exclusive webhooks with the subscription name [sub1], and between
    them a webhook with an initial position that does not exist. *)
Definition hidden_collision : list WebhookConfig :=
  [ webhook "https://example.com/a" "sub1" "exclusive" "latest";
    webhook "https://example.com/b" "sub2" "shared" "middle";
    webhook "https://example.com/c" "sub1" "exclusive" "latest" ].

(** A valid webhook followed by one whose URL has no scheme and no host. *)
Definition second_not_a_url : list WebhookConfig :=
  [ webhook "https://example.com/hook" "sub1" "shared" "latest";
    webhook "not-a-url" "sub2" "shared" "latest" ].

(* ===================================================================== *)
(** * Vocabulary of the statements: the store                             *)
(* ===================================================================== *)

(** Every document of the cache is stored under its own ID. *)
Definition keyed_by_ID (m : gmap string FunctionConfig) : Prop :=
  forall (k : string) (doc : FunctionConfig), m !! k = Some doc -> fc_ID doc = k.

Section db_vocabulary.

Context `{GoLibrary} `{PackageDb}.

(** The states of the store: that of [Init], and those that the operations
    and the listener make of a state.  The listener is taken at any point of
    its loop, so that operations may come between two of its records. *)
Inductive reachable : PulsarHandler -> Prop :=
| reachable_Init newClient createProducer :
    reachable (snd (Init newClient createProducer))
| reachable_Create now send functionCfg s :
    reachable s -> reachable (snd (Create now send functionCfg s))
| reachable_Update now send functionCfg s :
    reachable s -> reachable (snd (Update now send functionCfg s))
| reachable_DeleteByKey send hashedTopicKey s :
    reachable s -> reachable (snd (DeleteByKey send hashedTopicKey s))
| reachable_Delete send tenant functionName s :
    reachable s -> reachable (snd (Delete send tenant functionName s))
| reachable_dbListener stream deferred s :
    reachable s -> reachable (snd (dbListener_loop stream deferred s)).

(** The first record of a stream that decodes, if one comes before the
    reader fails. *)
Fixpoint first_decoded (stream : list ReaderNext) : option FunctionConfig :=
  match stream with
  | [] => None
  | Next_err _ :: _ => None
  | Next_msg payload :: rest =>
      match json_Unmarshal payload with
      | inl doc => Some doc
      | inr _ => first_decoded rest
      end
  end.

(** The documents that the pointers returned by [Load] refer to. *)
Definition Load_documents (visit : list (string * FunctionConfig))
  : list (option FunctionConfig) :=
  let '(results, heap) := fst (Load visit) in deref heap results.

End db_vocabulary.

(** The store after [Init]. *)
Definition store_Init : PulsarHandler (H := ascii_library) :=
  snd (Init None None).

(** The key of tenant [t1] and name [fn1], and that of [t1] and [fn2]. *)
Definition key_fn1 : string := "fd60cdb36cae12df704bedfbed321743d9e76bcc".
Definition key_fn2 : string := "9e504e143f5059e83c209ab4bfeb595ecb4a7f9e".

(** Documents as decoded from request bodies, without ID. *)
Definition fn1_request : FunctionConfig :=
  function_doc "t1" "fn1" "" Deactivated.
Definition fn2_request : FunctionConfig :=
  function_doc "t1" "fn2" "" Deactivated.
Definition fn1_activated_request : FunctionConfig :=
  function_doc "t1" "fn1" "" Activated.

(** The documents the store makes of the first two, created at time 100 and
    at time 150. *)
Definition fn1_created : FunctionConfig :=
  set_UpdatedAt 100 (set_CreatedAt 100 (set_ID key_fn1 fn1_request)).
Definition fn2_created : FunctionConfig :=
  set_UpdatedAt 150 (set_CreatedAt 150 (set_ID key_fn2 fn2_request)).

(** The store after [Create] of [fn1_request] at time 100, and after
    [Create] of [fn2_request] at time 150. *)
Definition store_fn1 : PulsarHandler (H := ascii_library) :=
  snd (Create (H0 := names_db) 100 None fn1_request store_Init).
Definition store_fn1_fn2 : PulsarHandler (H := ascii_library) :=
  snd (Create (H0 := names_db) 150 None fn2_request store_fn1).

(** Two records of the log for the key of [fn1]: activated, then deleted. *)
Definition fn1_activated_record : FunctionConfig :=
  function_doc "t1" "fn1" key_fn1 Activated.
Definition fn1_deleted_record : FunctionConfig :=
  function_doc "t1" "fn1" key_fn1 Deleted.

(** What the reader delivers of these two records, oldest first. *)
Definition fn1_stream : list (ReaderNext (H := ascii_library)) :=
  [ Next_msg (H := ascii_library) fn1_activated_record;
    Next_msg (H := ascii_library) fn1_deleted_record ].

(** The cached [fn1] with status Activated, as a caller that has read it
    from the store sends it back. *)
Definition fn1_activated_with_ID : FunctionConfig :=
  set_FunctionStatus Activated fn1_created.

(* ===================================================================== *)
(** * Package model: webhooks made by the package                         *)
(* ===================================================================== *)

(** The constant [NonResumable]. *)
Definition NonResumable : string := "NonResumable".

(** [NewWebhookConfig].  [topicKey] is the string that
    [icrypto.GenTopicKey()] returns, [nanos] is [time.Now().UnixNano()],
    [now1] and [now2] are the readings of the clock for CreatedAt and
    UpdatedAt.  The verb [%d] of [fmt.Sprintf] writes the integer in decimal,
    with a minus sign if it is negative, as [pretty] does. *)
Definition NewWebhookConfig (topicKey : string) (nanos : Z)
    (now1 now2 : time_Time) (URL : string) : WebhookConfig :=
  {| URL := URL;
     Headers := [];
     Subscription := NonResumable ++ topicKey ++ pretty nanos;
     SubscriptionType := "exclusive";
     InitialPosition := "latest";
     WebhookStatus := Activated;
     wh_CreatedAt := now1;
     wh_UpdatedAt := now2;
     wh_DeletedAt := time_zero |}.

(** The first and the last byte of a string, if it has one. *)
Definition first_byte (s : string) : option ascii :=
  head (list_ascii_of_string s).
Definition last_byte (s : string) : option ascii :=
  head (rev (list_ascii_of_string s)).

(** An ASCII byte that is not one of the six of [asciiSpace]. *)
Definition ascii_not_space (c : ascii) : bool :=
  negb (nonASCII c) && negb (asciiSpace c).

(** Two ASCII strings with the same letters, whatever their case. *)
Definition same_letters (a b : string) : Prop :=
  string_exists nonASCII a = false
  /\ string_exists nonASCII b = false
  /\ string_map lower_byte a = string_map lower_byte b.

(* ===================================================================== *)
(** * Package route: the routes of a mode (router.go)                     *)
(* ===================================================================== *)

(** What [router.go] uses from the rest of the repository: the type of a
    route, the three tables of routes and the three names of modes of
    package util. *)
Class PackageRoute : Type := {
  Route : Type;
  PrometheusRoute : list Route;
  ReceiverRoutes : list Route;
  RestRoutes : list Route;
  util_Hybrid : string;
  util_Receiver : string;
  util_HTTPOnly : string
}.

Section route.

Context `{PackageRoute}.

(** [getRoutes]; [mode] is the string its argument points to.  The value of
    [append(a, b...)] is [a] followed by [b]. *)
Definition getRoutes (mode : string) : list Route :=
  if String.eqb mode util_Hybrid then (ReceiverRoutes ++ RestRoutes)%list
  else if String.eqb mode util_Receiver then ReceiverRoutes
  else if String.eqb mode util_HTTPOnly then (ReceiverRoutes ++ RestRoutes)%list
  else RestRoutes.

(** [GetEffectiveRoutes] *)
Definition GetEffectiveRoutes (mode : string) : list Route :=
  (PrometheusRoute ++ getRoutes mode)%list.

End route.

(** Tables of three kinds of routes, named by their paths, and three mode
    names, for running [GetEffectiveRoutes]. *)
Definition path_routes : PackageRoute :=
  {| Route := string;
     PrometheusRoute := ["/metrics"];
     ReceiverRoutes := ["/v1/firehose"];
     RestRoutes := ["/v2/function"; "/v2/function/{key}"];
     util_Hybrid := "hybrid";
     util_Receiver := "receiver";
     util_HTTPOnly := "http" |}.

(* ===================================================================== *)
(** * Vocabulary of the further statements                                *)
(* ===================================================================== *)

(** [doc] is [cfg] but for its ID, CreatedAt and UpdatedAt. *)
Definition same_content (doc cfg : FunctionConfig) : Prop :=
  set_ID (fc_ID cfg)
    (set_CreatedAt (fc_CreatedAt cfg) (set_UpdatedAt (fc_UpdatedAt cfg) doc))
  = cfg.

Section listener_vocabulary.

Context `{GoLibrary}.

(** What the reader delivers, but for the messages that do not decode. *)
Definition decodes (next : ReaderNext) : bool :=
  match next with
  | Next_err _ => true
  | Next_msg payload =>
      match json_Unmarshal payload with
      | inl _ => true
      | inr _ => false
      end
  end.

(** A stream in which the reader fails before a second record decodes:
    [decoded] says whether one has decoded already. *)
Fixpoint fails_before_second (decoded : bool) (stream : list ReaderNext) : bool :=
  match stream with
  | [] => false
  | Next_err _ :: _ => true
  | Next_msg payload :: rest =>
      match json_Unmarshal payload with
      | inr _ => fails_before_second decoded rest
      | inl _ => if decoded then false else fails_before_second true rest
      end
  end.

(** A start of the listener that ends with an error: its reader cannot be
    created, or fails before a second record decodes. *)
Definition run_fails (run : option error * list ReaderNext) : bool :=
  match run with
  | (Some _, _) => true
  | (None, stream) => fails_before_second false stream
  end.

(** The record that a start of the listener folds, if any. *)
Definition run_record (run : option error * list ReaderNext)
  : option FunctionConfig :=
  match run with
  | (Some _, _) => None
  | (None, stream) => first_decoded stream
  end.

(** The cache after the records of the starts [runs], one after the
    other. *)
Definition fold_runs (runs : list (option error * list ReaderNext))
    (m : gmap string FunctionConfig) : gmap string FunctionConfig :=
  foldl (fun m run =>
           match run_record run with
           | Some doc => foldRecord doc m
           | None => m
           end) m runs.

End listener_vocabulary.

Section store_vocabulary.

Context `{GoLibrary}.

(** Each message of the log is keyed by the ID of the document it
    encodes. *)
Definition log_keyed_by_ID (log : list ProducerMessage) : Prop :=
  forall msg, In msg log ->
    exists doc, json_Marshal doc = inl (msg_Payload msg)
                /\ msg_Key msg = fc_ID doc.

End store_vocabulary.

(* ===================================================================== *)
(** * Inputs of the further examples                                      *)
(* ===================================================================== *)

(** The two webhooks of [shared_and_exclusive]. *)
Definition shared_sub1 : WebhookConfig :=
  webhook "https://example.com/hook" "sub1" "shared" "latest".
Definition exclusive_sub2 : WebhookConfig :=
  webhook "https://example.com/other" "sub2" "exclusive" "earliest".

(** Two starts of the listener, each losing its reader after one record. *)
Definition two_failing_runs
  : list (option error * list (ReaderNext (H := ascii_library))) :=
  [ (None, [ Next_msg (H := ascii_library) fn1_activated_record;
             Next_err (H := ascii_library) (ExternalError "connection closed") ]);
    (None, [ Next_msg (H := ascii_library) fn1_deleted_record;
             Next_err (H := ascii_library) (ExternalError "connection closed") ]) ].

(* ===================================================================== *)
(** * Vocabulary: SHA-1 as the standard states it                         *)
(* ===================================================================== *)

(** The Secure Hash Standard (FIPS 180-4, section 6.1) states SHA-1 over
    the whole padded message: the message is padded (5.1.1), parsed into
    512-bit blocks (5.2.1), and each block in turn updates the hash value
    through eighty steps over the message schedule W(0..79), where
    W(t) = ROTL1 (W(t-3) xor W(t-8) xor W(t-14) xor W(t-16)) from t = 16 on.
    [sha1.Sum] is compared with this statement. *)
Module fips180.

(** 5.1.1: the message, the byte 0x80, [k] zero bytes with
    [l + 1 + k = 56 (mod 64)], and the bit length on eight bytes. *)
Definition pad (M : list Z) : list Z :=
  let l := Z.of_nat (length M) in
  let k := Z.to_nat ((55 - l) mod 64) in
  (M ++ [0x80] ++ repeat 0 k ++ sha1.be_bytes 8 ((8 * l) mod 2 ^ 64))%list.

(** 5.2.1: the padded message cut into blocks of 64 bytes, first to last. *)
Fixpoint parse (fuel : nat) (bs : list Z) : list (list Z) :=
  match fuel with
  | O => []
  | S fuel' =>
      match bs with
      | [] => []
      | _ :: _ => firstn 64 bs :: parse fuel' (skipn 64 bs)
      end
  end.

(** 6.1.2 step 1: [extend n ws] appends to the words [ws] the next [n]
    words of the message schedule. *)
Fixpoint extend (n : nat) (ws : list Z) : list Z :=
  match n with
  | O => ws
  | S n' =>
      let t := length ws in
      extend n'
        (ws ++ [sha1.rotl 1
                  (Z.lxor (Z.lxor (Z.lxor (nth (t - 3) ws 0) (nth (t - 8) ws 0))
                                  (nth (t - 14) ws 0))
                          (nth (t - 16) ws 0))])%list
  end.

(** The eighty words W(0), ..., W(79) of a block. *)
Definition schedule (M : list Z) : list Z := extend 64 (sha1.words 16 M).

(** 6.1.2 step 3, for one [t]. *)
Definition step (W : list Z) (st : Z * Z * Z * Z * Z) (t : nat)
  : Z * Z * Z * Z * Z :=
  let '(a, b, c, d, e) := st in
  let T :=
    sha1.add32
      (sha1.add32
         (sha1.add32 (sha1.add32 (sha1.rotl 5 a) (sha1.f t b c d)) e)
         (sha1.K t))
      (nth t W 0) in
  (T, a, sha1.rotl 30 b, c, d).

(** 6.1.2 steps 2 to 4: the hash value after one more block. *)
Definition compress (H : Z * Z * Z * Z * Z) (M : list Z) : Z * Z * Z * Z * Z :=
  let '(h0, h1, h2, h3, h4) := H in
  let '(a, b, c, d, e) := fold_left (step (schedule M)) (seq 0 80) H in
  (sha1.add32 a h0, sha1.add32 b h1, sha1.add32 c h2, sha1.add32 d h3,
   sha1.add32 e h4).

(** The message digest: the final hash value, on twenty bytes. *)
Definition hash (M : list Z) : list Z :=
  let padded := pad M in
  let '(h0, h1, h2, h3, h4) :=
    fold_left compress (parse (length padded) padded) sha1.init in
  (sha1.be_bytes 4 h0 ++ sha1.be_bytes 4 h1 ++ sha1.be_bytes 4 h2
     ++ sha1.be_bytes 4 h3 ++ sha1.be_bytes 4 h4)%list.

End fips180.

(** The bytes that [GenKey] hashes: those of the first name followed by
    those of the second. *)
Definition key_message (tenant functionName : string) : list Z :=
  (bytes_of_string tenant ++ bytes_of_string functionName)%list.

(** Two pairs of names, each filling more than two blocks of 64 bytes. *)
Definition long_tenant : string :=
  "tenant-tenant-tenant-tenant-tenant-tenant-tenant-tenant-tenant-tenant-".
Definition long_function : string :=
  "function-function-function-function-function-function-function-function-function-function-".
Definition digits_tenant : string :=
  "0123456789012345678901234567890123456789012345678901234567890123456789".
Definition letters_function : string :=
  "abcdefghijklmnopqrstuvwxyzabcdefghijklmnopqrstuvwxyzabcdefghijklmnopqrstuvwxyz".

(* ===================================================================== *)
(** * Vocabulary of the statements: tombstones                            *)
(* ===================================================================== *)

(** [copy] is the document [v] but for its status, which is [status]. *)
Definition copy_with_status (status : Status) (v copy : FunctionConfig) : Prop :=
  FunctionStatus copy = status
  /\ fc_Name copy = fc_Name v
  /\ fc_ID copy = fc_ID v
  /\ fc_Tenant copy = fc_Tenant v
  /\ FunctionFilePath copy = FunctionFilePath v
  /\ LanguagePack copy = LanguagePack v
  /\ Parallelism copy = Parallelism v
  /\ WebhookURLs copy = WebhookURLs v
  /\ InputTopic copy = InputTopic v
  /\ OutputTopic copy = OutputTopic v
  /\ LogTopic copy = LogTopic v
  /\ TriggerType copy = TriggerType v
  /\ Cron copy = Cron v
  /\ fc_CreatedAt copy = fc_CreatedAt v
  /\ fc_UpdatedAt copy = fc_UpdatedAt v
  /\ fc_DeletedAt copy = fc_DeletedAt v.

(** The document [fn1] as [Create] caches it at time 100, field by field,
    and the same with status Deleted. *)
Definition fn1_cached : FunctionConfig :=
  {| fc_Name := "fn1"; fc_ID := key_fn1; fc_Tenant := "t1";
     FunctionStatus := 0%Z;
     FunctionFilePath := ""; LanguagePack := ""; Parallelism := 0%Z;
     WebhookURLs := []; InputTopic := FunctionTopic_zero;
     OutputTopic := FunctionTopic_zero; LogTopic := FunctionTopic_zero;
     TriggerType := ""; Cron := ""; fc_CreatedAt := 100%Z;
     fc_UpdatedAt := 100%Z; fc_DeletedAt := time_zero |}.
Definition fn1_tombstone : FunctionConfig :=
  {| fc_Name := "fn1"; fc_ID := key_fn1; fc_Tenant := "t1";
     FunctionStatus := 3%Z;
     FunctionFilePath := ""; LanguagePack := ""; Parallelism := 0%Z;
     WebhookURLs := []; InputTopic := FunctionTopic_zero;
     OutputTopic := FunctionTopic_zero; LogTopic := FunctionTopic_zero;
     TriggerType := ""; Cron := ""; fc_CreatedAt := 100%Z;
     fc_UpdatedAt := 100%Z; fc_DeletedAt := time_zero |}.

(** The key and the status of each message of a log whose payloads are the
    documents themselves, oldest first. *)
Definition log_statuses (log : list (ProducerMessage (H := ascii_library)))
  : list (string * Status) :=
  map (fun msg : ProducerMessage (H := ascii_library) =>
         (msg_Key msg, FunctionStatus (msg_Payload msg))) log.


(* ===================================================================== *)
(** * Properties: key derivation                                          *)
(* ===================================================================== *)

Example sha1_empty :
  hex_EncodeToString (sha1.Sum (bytes_of_string "")) =
  "da39a3ee5e6b4b0d3255bfef95601890afd80709"%string.
Proof. vm_compute. reflexivity. Qed.

Example sha1_abc :
  hex_EncodeToString (sha1.Sum (bytes_of_string "abc")) =
  "a9993e364706816aba3e25717850c26c9cd0d89d"%string.
Proof. vm_compute. reflexivity. Qed.

Example sha1_fox :
  hex_EncodeToString
    (sha1.Sum (bytes_of_string "The quick brown fox jumps over the lazy dog")) =
  "2fd4e1c67a2d28fced849ee1bb76e7391b93eb12"%string.
Proof. vm_compute. reflexivity. Qed.

Example sha1_two_blocks :
  hex_EncodeToString
    (sha1.Sum (bytes_of_string
       "abcdbcdecdefdefgefghfghighijhijkijkljklmklmnlmnomnopnopq")) =
  "84983e441c3bd26ebaae4aa1f95129e5e54670f1"%string.
Proof. vm_compute. reflexivity. Qed.

Example IsURL_plain :
  IsURL (H := ascii_library) "https://example.com/hook" = true
  /\ IsURL (H := ascii_library) "not-a-url" = false.
Proof. split; reflexivity. Qed.

Example GetSubscriptionType_mixed_case :
  GetSubscriptionType (H := ascii_library) "KeyShared" = (pulsar_KeyShared, None)
  /\ GetSubscriptionType (H := ascii_library) "" = (pulsar_Exclusive, None)
  /\ snd (GetSubscriptionType (H := ascii_library) "fan-out") <> None.
Proof. repeat split; try reflexivity. discriminate. Qed.

Example strings_TrimSpace_ascii :
  strings_TrimSpace (H := ascii_library) "  sub 1  " = "sub 1"
  /\ strings_TrimSpace (H := ascii_library) "   " = "".
Proof. split; reflexivity. Qed.

Lemma be_bytes_length (width : nat) (x : Z) :
  length (sha1.be_bytes width x) = width.
Proof.
  unfold sha1.be_bytes.
  rewrite length_map, length_rev, length_seq. reflexivity.
Qed.

Lemma land_255_byte (x : Z) : is_byte (Z.land x 0xFF).
Proof.
  change 0xFF%Z with (Z.ones 8).
  rewrite Z.land_ones by lia.
  unfold is_byte. change (2 ^ 8)%Z with 256%Z.
  apply Z.mod_pos_bound. lia.
Qed.

Lemma be_bytes_bytes (width : nat) (x : Z) :
  Forall is_byte (sha1.be_bytes width x).
Proof.
  unfold sha1.be_bytes. apply Forall_map, Forall_forall.
  intros i _. apply land_255_byte.
Qed.

(** The digest has [sha1.Size] bytes, whatever the input. *)
Lemma sha1_Sum_length (data : list Z) : length (sha1.Sum data) = sha1.Size.
Proof.
  unfold sha1.Sum.
  destruct (sha1.blocks _ _ _) as [[[[h0 h1] h2] h3] h4].
  rewrite !length_app, !be_bytes_length. reflexivity.
Qed.

Lemma sha1_Sum_bytes (data : list Z) : Forall is_byte (sha1.Sum data).
Proof.
  unfold sha1.Sum.
  destruct (sha1.blocks _ _ _) as [[[[h0 h1] h2] h3] h4].
  repeat (apply Forall_app; split); apply be_bytes_bytes.
Qed.

Lemma hex_EncodeToString_length (src : list Z) :
  String.length (hex_EncodeToString src) = (2 * length src)%nat.
Proof.
  induction src as [|v rest IH]; simpl; [reflexivity|].
  rewrite IH. lia.
Qed.

Lemma hextable_lower_hex (n : Z) :
  (0 <= n < 16)%Z -> lower_hex (hextable n) = true.
Proof.
  intros Hn.
  assert (Hcases : In n [0; 1; 2; 3; 4; 5; 6; 7; 8; 9; 10; 11; 12; 13; 14; 15]%Z).
  { simpl. lia. }
  simpl in Hcases.
  repeat (destruct Hcases as [<-|Hcases]; [reflexivity|]).
  contradiction.
Qed.

Lemma hex_EncodeToString_lower_hex (src : list Z) :
  Forall is_byte src -> string_forall lower_hex (hex_EncodeToString src) = true.
Proof.
  induction 1 as [|v rest Hv _ IH]; simpl; [reflexivity|].
  unfold is_byte in Hv.
  rewrite IH, !hextable_lower_hex; [reflexivity| |].
  - change 0x0F%Z with (Z.ones 4). rewrite Z.land_ones by lia.
    apply Z.mod_pos_bound. lia.
  - rewrite Z.shiftr_div_pow2 by lia. change (2 ^ 4)%Z with 16%Z.
    split; [apply Z.div_pos; lia | apply Z.div_lt_upper_bound; lia].
Qed.

Lemma bytes_of_string_app (s t : string) :
  bytes_of_string (s ++ t) = (bytes_of_string s ++ bytes_of_string t)%list.
Proof.
  unfold bytes_of_string.
  induction s as [|c s IH]; simpl; [reflexivity|].
  f_equal. exact IH.
Qed.

(** ** [sha1.Sum] computes SHA-1 as the standard states it *)

Lemma padding_zeros (len : nat) :
  (if (len mod 64 <? 56)%nat then (55 - len mod 64)%nat else (119 - len mod 64)%nat)
  = Z.to_nat ((55 - Z.of_nat len) mod 64).
Proof.
  pose proof (Nat.mod_upper_bound len 64 ltac:(lia)) as Hr.
  pose proof (Nat.div_mod_eq len 64) as Hq.
  set (r := (len mod 64)%nat) in *. set (q := (len / 64)%nat) in *.
  destruct (Nat.ltb_spec r 56).
  - assert ((55 - Z.of_nat len) mod 64 = 55 - Z.of_nat r)%Z as ->; [|lia].
    symmetry. apply (Z.mod_unique_pos _ _ (- Z.of_nat q)); lia.
  - assert ((55 - Z.of_nat len) mod 64 = 119 - Z.of_nat r)%Z as ->; [|lia].
    symmetry. apply (Z.mod_unique_pos _ _ (- Z.of_nat q - 1)); lia.
Qed.

Lemma sha1_padding_pad (data : list Z) :
  (data ++ sha1.padding (length data))%list = fips180.pad data.
Proof.
  unfold sha1.padding, fips180.pad.
  rewrite padding_zeros.
  change 0xFFFFFFFFFFFFFFFF%Z with (Z.ones 64).
  rewrite Z.land_ones by lia.
  reflexivity.
Qed.

(** The padded message is a whole number of blocks. *)
Lemma pad_length (data : list Z) :
  length (fips180.pad data)
  = (64 * Z.to_nat ((Z.of_nat (length data) + 8) / 64 + 1))%nat.
Proof.
  unfold fips180.pad.
  rewrite !length_app, repeat_length, be_bytes_length. simpl length.
  pose proof (Z.mod_pos_bound (55 - Z.of_nat (length data)) 64 ltac:(lia)) as Hk.
  pose proof (Z.div_mod (55 - Z.of_nat (length data)) 64 ltac:(lia)) as Hd.
  pose proof (Z.div_mod (Z.of_nat (length data) + 8) 64 ltac:(lia)) as He.
  pose proof (Z.mod_pos_bound (Z.of_nat (length data) + 8) 64 ltac:(lia)) as Hm.
  lia.
Qed.

Lemma sha1_blocks_parse (n fuel : nat) (st : Z * Z * Z * Z * Z) (bs : list Z) :
  length bs = (64 * n)%nat -> (n <= fuel)%nat ->
  sha1.blocks n st bs = fold_left sha1.block (fips180.parse fuel bs) st.
Proof.
  revert fuel st bs.
  induction n as [|n IH]; intros fuel st bs Hlen Hfuel.
  - destruct bs; [|simpl in Hlen; lia].
    destruct fuel; reflexivity.
  - destruct fuel as [|fuel]; [lia|].
    destruct bs as [|b bs]; [simpl in Hlen; lia|].
    change (sha1.blocks n (sha1.block st (firstn 64 (b :: bs))) (skipn 64 (b :: bs))
            = fold_left sha1.block
                (fips180.parse fuel (skipn 64 (b :: bs)))
                (sha1.block st (firstn 64 (b :: bs)))).
    apply IH; [|lia].
    rewrite length_skipn, Hlen. lia.
Qed.

Lemma extend_length (n : nat) (ws : list Z) :
  length (fips180.extend n ws) = (length ws + n)%nat.
Proof.
  revert ws. induction n as [|n IH]; intros ws; simpl; [lia|].
  rewrite IH, length_app. simpl. lia.
Qed.

Lemma extend_prefix (n : nat) (ws : list Z) (i : nat) :
  (i < length ws)%nat -> nth i (fips180.extend n ws) 0 = nth i ws 0.
Proof.
  revert ws. induction n as [|n IH]; intros ws Hi; simpl; [reflexivity|].
  rewrite IH by (rewrite length_app; simpl; lia).
  apply app_nth1. exact Hi.
Qed.

(** From the sixteenth on, every word of the schedule is the rotated sum of
    four earlier ones. *)
Lemma extend_recurrence (n : nat) (ws : list Z) (j : nat) :
  (16 <= length ws)%nat -> (length ws <= j < length ws + n)%nat ->
  nth j (fips180.extend n ws) 0 =
  sha1.rotl 1
    (Z.lxor (Z.lxor (Z.lxor (nth (j - 3) (fips180.extend n ws) 0)
                            (nth (j - 8) (fips180.extend n ws) 0))
                    (nth (j - 14) (fips180.extend n ws) 0))
            (nth (j - 16) (fips180.extend n ws) 0)).
Proof.
  revert ws. induction n as [|n IH]; intros ws Hws Hj; [lia|].
  destruct (Nat.eq_dec j (length ws)) as [->|Hne].
  - rewrite (extend_prefix (S n) ws (length ws - 3)),
      (extend_prefix (S n) ws (length ws - 8)),
      (extend_prefix (S n) ws (length ws - 14)),
      (extend_prefix (S n) ws (length ws - 16)) by lia.
    simpl. rewrite extend_prefix by (rewrite length_app; simpl; lia).
    rewrite app_nth2 by lia. rewrite Nat.sub_diag. reflexivity.
  - simpl. apply IH; rewrite length_app; simpl; lia.
Qed.

Lemma words_length (n : nat) (bs : list Z) : length (sha1.words n bs) = n.
Proof.
  revert bs. induction n as [|n IH]; intros bs; simpl; [reflexivity|].
  rewrite IH. reflexivity.
Qed.

Lemma schedule_recurrence (M : list Z) (j : nat) :
  (16 <= j < 80)%nat ->
  nth j (fips180.schedule M) 0 =
  sha1.rotl 1
    (Z.lxor (Z.lxor (Z.lxor (nth (j - 3) (fips180.schedule M) 0)
                            (nth (j - 8) (fips180.schedule M) 0))
                    (nth (j - 14) (fips180.schedule M) 0))
            (nth (j - 16) (fips180.schedule M) 0)).
Proof.
  intros Hj. unfold fips180.schedule.
  apply extend_recurrence; rewrite words_length; lia.
Qed.

(** The sliding window of [sha1.rounds] holds the words W(t), ..., W(t+15)
    of the schedule, as far as the schedule goes. *)
Lemma sha1_rounds_steps (W : list Z) (n t : nat) (w : list Z)
    (st : Z * Z * Z * Z * Z) :
  (forall j, (16 <= j < 80)%nat ->
     nth j W 0 =
     sha1.rotl 1
       (Z.lxor (Z.lxor (Z.lxor (nth (j - 3) W 0) (nth (j - 8) W 0))
                       (nth (j - 14) W 0))
               (nth (j - 16) W 0))) ->
  length w = 16%nat ->
  (forall i, (i < 16)%nat -> (t + i < 80)%nat -> nth i w 0 = nth (t + i) W 0) ->
  (t + n <= 80)%nat ->
  sha1.rounds n t w st = fold_left (fips180.step W) (seq t n) st.
Proof.
  intros HW. revert t w st.
  induction n as [|n IH]; intros t w st Hlen Hw Htn; [reflexivity|].
  destruct st as [[[[a b] c] d] e].
  cbn [sha1.rounds seq fold_left fips180.step].
  rewrite (Hw 0%nat) by lia. rewrite Nat.add_0_r.
  apply IH; [| |lia].
  - rewrite length_app. destruct w; simpl in *; lia.
  - intros i Hi Hti.
    destruct w as [|w0 w]; [discriminate|]. simpl tl.
    destruct (Nat.eq_dec i 15%nat) as [->|Hne].
    + rewrite app_nth2 by (simpl in Hlen; lia).
      replace (15 - length w)%nat with 0%nat by (simpl in Hlen; lia).
      cbn [nth].
      rewrite (HW (S t + 15)%nat) by lia.
      replace (S t + 15 - 3)%nat with (t + 13)%nat by lia.
      replace (S t + 15 - 8)%nat with (t + 8)%nat by lia.
      replace (S t + 15 - 14)%nat with (t + 2)%nat by lia.
      replace (S t + 15 - 16)%nat with t by lia.
      rewrite <- (Hw 13%nat), <- (Hw 8%nat), <- (Hw 2%nat) by lia.
      cbn [nth]. rewrite !Z.lxor_assoc. reflexivity.
    + rewrite app_nth1 by (simpl in Hlen; lia).
      replace (S t + i)%nat with (t + S i)%nat by lia.
      rewrite <- (Hw (S i)) by lia. reflexivity.
Qed.

Lemma add32_comm (x y : Z) : sha1.add32 x y = sha1.add32 y x.
Proof. unfold sha1.add32. rewrite Z.add_comm. reflexivity. Qed.

Lemma sha1_block_compress (st : Z * Z * Z * Z * Z) (bs : list Z) :
  sha1.block st bs = fips180.compress st bs.
Proof.
  unfold sha1.block, fips180.compress.
  destruct st as [[[[h0 h1] h2] h3] h4].
  rewrite (sha1_rounds_steps (fips180.schedule bs)).
  - destruct (fold_left _ _ _) as [[[[a b] c] d] e].
    rewrite (add32_comm h0), (add32_comm h1), (add32_comm h2),
      (add32_comm h3), (add32_comm h4).
    reflexivity.
  - intros j Hj. apply schedule_recurrence. exact Hj.
  - apply words_length.
  - intros i Hi _. unfold fips180.schedule.
    rewrite extend_prefix by (rewrite words_length; lia). reflexivity.
  - lia.
Qed.

Lemma fold_left_ext_eq {A B : Type} (f g : A -> B -> A) (l : list B) (a : A) :
  (forall x y, f x y = g x y) -> fold_left f l a = fold_left g l a.
Proof.
  intros Hfg. revert a. induction l as [|y l IH]; intros a; simpl; [reflexivity|].
  rewrite Hfg. apply IH.
Qed.

(** [sha1.Sum] is SHA-1 of the whole message. *)
Lemma sha1_Sum_fips180 (data : list Z) : sha1.Sum data = fips180.hash data.
Proof.
  unfold sha1.Sum, fips180.hash.
  rewrite sha1_padding_pad.
  rewrite (sha1_blocks_parse _ (length (fips180.pad data))).
  - rewrite (fold_left_ext_eq sha1.block fips180.compress)
      by apply sha1_block_compress.
    reflexivity.
  - rewrite pad_length.
    rewrite (Nat.mul_comm 64), Nat.div_mul by lia. apply Nat.mul_comm.
  - rewrite pad_length.
    rewrite (Nat.mul_comm 64), Nat.div_mul by lia. lia.
Qed.

(** The blocks of the padded message are the padded message: nothing of it
    is left out of the digest's input. *)
Lemma parse_concat (fuel : nat) (bs : list Z) :
  (length bs <= fuel)%nat -> concat (fips180.parse fuel bs) = bs.
Proof.
  revert bs. induction fuel as [|fuel IH]; intros bs Hlen.
  - destruct bs; [reflexivity|simpl in Hlen; lia].
  - destruct bs as [|b bs]; [reflexivity|].
    change (firstn 64 (b :: bs) ++ concat (fips180.parse fuel (skipn 64 (b :: bs)))
            = b :: bs)%list.
    rewrite IH; [apply firstn_skipn|].
    rewrite length_skipn. simpl in *. lia.
Qed.

(** The blocks start with the message itself. *)
Lemma pad_message (data : list Z) :
  firstn (length data) (fips180.pad data) = data.
Proof.
  unfold fips180.pad. rewrite firstn_app, firstn_all, Nat.sub_diag.
  simpl. apply app_nil_r.
Qed.

(** ** [hex.EncodeToString] loses nothing *)

Lemma hextable_inj (a b : Z) :
  (0 <= a < 16)%Z -> (0 <= b < 16)%Z -> hextable a = hextable b -> a = b.
Proof.
  intros Ha Hb.
  assert (Hca : In a [0; 1; 2; 3; 4; 5; 6; 7; 8; 9; 10; 11; 12; 13; 14; 15]%Z).
  { simpl. lia. }
  assert (Hcb : In b [0; 1; 2; 3; 4; 5; 6; 7; 8; 9; 10; 11; 12; 13; 14; 15]%Z).
  { simpl. lia. }
  clear Ha Hb. simpl in Hca, Hcb.
  repeat (destruct Hca as [<-|Hca]); try contradiction;
    repeat (destruct Hcb as [<-|Hcb]); try contradiction;
    intros Heq; try reflexivity; vm_compute in Heq; discriminate Heq.
Qed.

Lemma byte_high_low (v : Z) :
  is_byte v ->
  (0 <= Z.shiftr v 4 < 16)%Z /\ (0 <= Z.land v 0x0F < 16)%Z
  /\ v = (16 * Z.shiftr v 4 + Z.land v 0x0F)%Z.
Proof.
  unfold is_byte. intros Hv.
  change 0x0F%Z with (Z.ones 4). rewrite Z.land_ones by lia.
  rewrite Z.shiftr_div_pow2 by lia. change (2 ^ 4)%Z with 16%Z.
  pose proof (Z.div_mod v 16 ltac:(lia)) as Hdm.
  pose proof (Z.mod_pos_bound v 16 ltac:(lia)) as Hm.
  split; [split; [apply Z.div_pos; lia | apply Z.div_lt_upper_bound; lia]|].
  split; [exact Hm|exact Hdm].
Qed.

Lemma hex_EncodeToString_inj (src src' : list Z) :
  Forall is_byte src -> Forall is_byte src' ->
  hex_EncodeToString src = hex_EncodeToString src' -> src = src'.
Proof.
  intros Hsrc. revert src'.
  induction Hsrc as [|v rest Hv _ IH]; intros src' Hsrc' Heq.
  - destruct src'; [reflexivity|discriminate Heq].
  - destruct Hsrc' as [|v' rest' Hv' Hrest']; [discriminate Heq|].
    simpl in Heq. injection Heq as Hhigh Hlow Hrest.
    destruct (byte_high_low v Hv) as (Hh & Hl & Hsplit).
    destruct (byte_high_low v' Hv') as (Hh' & Hl' & Hsplit').
    apply hextable_inj in Hhigh; [|assumption|assumption].
    apply hextable_inj in Hlow; [|assumption|assumption].
    f_equal; [|apply IH; assumption].
    rewrite Hsplit, Hsplit', Hhigh, Hlow. reflexivity.
Qed.

(** C9. Key derivation never fails and is a function of its two inputs.  The
    key is the lower-case hexadecimal encoding, forty digits, of a
    twenty-byte digest, and the encoding loses nothing: two pairs of inputs
    have the same key exactly when they have the same digest.  The digest is
    SHA-1, as the standard states it, of the message made of the bytes of the
    first input followed by the bytes of the second: the message is padded
    to a whole number of blocks of 64 bytes, the blocks are the whole padded
    message, which starts with the message, and every block in turn updates
    the hash value.  On the two example messages of the standard, one of one
    block and one of two, and on a pair of names of three blocks, the keys
    are the published digests. *)
Theorem GenKey_is_hex_of_digest (tenant functionName : string) :
  GetKeyFromNames tenant functionName = (GenKey tenant functionName, None)
  /\ GenKey tenant functionName =
       hex_EncodeToString
         (sha1.Sum (bytes_of_string tenant ++ bytes_of_string functionName)%list)
  /\ sha1.Sum (key_message tenant functionName)
       = fips180.hash (key_message tenant functionName)
  /\ (let padded := fips180.pad (key_message tenant functionName) in
      firstn (length (key_message tenant functionName)) padded
        = key_message tenant functionName
      /\ length padded
         = (64 * Z.to_nat
                   ((Z.of_nat (length (key_message tenant functionName)) + 8) / 64
                    + 1))%nat
      /\ concat (fips180.parse (length padded) padded) = padded)
  /\ length (sha1.Sum (bytes_of_string tenant ++ bytes_of_string functionName)%list)
       = sha1.Size
  /\ String.length (GenKey tenant functionName) = 40%nat
  /\ string_forall lower_hex (GenKey tenant functionName) = true
  /\ (forall tenant' functionName' : string,
        GenKey tenant' functionName' = GenKey tenant functionName
        <-> sha1.Sum (key_message tenant' functionName')
            = sha1.Sum (key_message tenant functionName))
  /\ (forall tenant' functionName' : string,
        tenant' = tenant -> functionName' = functionName ->
        GetKeyFromNames tenant' functionName'
          = GetKeyFromNames tenant functionName)
  /\ GenKey "abc" "" = "a9993e364706816aba3e25717850c26c9cd0d89d"
  /\ GenKey "abcdbcdecdefdefgefghfghighij" "hijkijkljklmklmnlmnomnopnopq"
       = "84983e441c3bd26ebaae4aa1f95129e5e54670f1"
  /\ GenKey digits_tenant letters_function
       = "3c912fd5a1602881a8cc1f45b6e9c73f0be17203".
Proof.
  assert (Hkey : forall t n, GenKey t n
                   = hex_EncodeToString (sha1.Sum (key_message t n))).
  { intros t n. unfold GenKey, key_message.
    rewrite bytes_of_string_app. reflexivity. }
  split; [reflexivity|].
  split; [apply Hkey|].
  split; [apply sha1_Sum_fips180|].
  split.
  { cbv zeta. split; [apply pad_message|]. split; [apply pad_length|].
    apply parse_concat. lia. }
  split; [apply sha1_Sum_length|].
  split.
  { rewrite Hkey, hex_EncodeToString_length, sha1_Sum_length. reflexivity. }
  split; [rewrite Hkey; apply hex_EncodeToString_lower_hex, sha1_Sum_bytes|].
  split.
  { intros t' n'. rewrite !Hkey. split; [|intros ->; reflexivity].
    apply hex_EncodeToString_inj; apply sha1_Sum_bytes. }
  split; [intros t' n' -> ->; reflexivity|].
  repeat split; vm_compute; reflexivity.
Qed.

Lemma GenKey_is_hex_of_digest_witness :
  GenKey long_tenant long_function = "6e4613906eb56f8d78b90f95d59154a79cf679ef"
  /\ GetKeyFromNames long_tenant long_function
     = ("6e4613906eb56f8d78b90f95d59154a79cf679ef", None).
Proof.
  destruct (GenKey_is_hex_of_digest long_tenant long_function)
    as (Hget & Hkey & Hfips & _ & _ & _ & _ & _ & Hsame & _).
  assert (Hlong : GenKey long_tenant long_function
                  = "6e4613906eb56f8d78b90f95d59154a79cf679ef").
  { rewrite Hkey.
    change (bytes_of_string long_tenant ++ bytes_of_string long_function)%list
      with (key_message long_tenant long_function).
    rewrite Hfips. vm_compute. reflexivity. }
  split; [exact Hlong|].
  transitivity (GetKeyFromNames long_tenant long_function);
    [exact (Hsame long_tenant long_function eq_refl eq_refl)|].
  rewrite Hget, Hlong. reflexivity.
Defined.

Lemma string_app_assoc (a b c : string) : ((a ++ b) ++ c = a ++ (b ++ c))%string.
Proof.
  induction a as [|x a IH]; [reflexivity|].
  change (String x ((a ++ b) ++ c) = String x (a ++ (b ++ c)))%string.
  rewrite IH. reflexivity.
Qed.

(** The key depends on the concatenation only: moving a character from the
    end of the first input to the start of the second keeps the key. *)
Lemma GenKey_concatenation (a b c : string) :
  GenKey (a ++ b) c = GenKey a (b ++ c).
Proof.
  unfold GenKey. rewrite string_app_assoc. reflexivity.
Qed.

(* ===================================================================== *)
(** * Properties: validation                                              *)
(* ===================================================================== *)

Section model_properties.

Context `{GoLibrary}.

Lemma strings_ToLower_empty : strings_ToLower "" = "".
Proof. reflexivity. Qed.

(** On an ASCII string, [strings.ToLower] lowers each letter A to Z and
    keeps the other bytes. *)
Lemma strings_ToLower_ascii (s : string) :
  string_exists nonASCII s = false ->
  strings_ToLower s = string_map lower_byte s.
Proof.
  intros Hascii. unfold strings_ToLower. rewrite Hascii.
  destruct (string_exists isUpper s) eqn:Hup; [reflexivity|].
  clear Hascii. induction s as [|c s IH]; [reflexivity|].
  simpl in Hup. apply orb_false_iff in Hup as [Hc Hs].
  simpl. unfold lower_byte at 1. rewrite Hc. f_equal. apply IH, Hs.
Qed.


Lemma GetSubscriptionType_known (subType : string) :
  known_type subType ->
  snd (GetSubscriptionType subType) = None
  /\ In (fst (GetSubscriptionType subType))
        [pulsar_Exclusive; pulsar_Shared; pulsar_KeyShared; pulsar_Failover].
Proof.
  unfold known_type, GetSubscriptionType.
  intros [-> | [-> | [-> | [-> | ->]]]]; simpl; auto 6.
Qed.

Lemma GetSubscriptionType_unknown (subType : string) :
  ~ known_type subType ->
  GetSubscriptionType subType
    = ((-1)%Z, Some (UnsupportedSubscriptionType subType)).
Proof.
  unfold known_type, GetSubscriptionType. intros Hno.
  repeat match goal with
  | |- context [String.eqb ?a ?b] =>
      destruct (String.eqb_spec a b) as [Heq|_];
      [exfalso; apply Hno; rewrite Heq; auto 6|]
  end.
  reflexivity.
Qed.

Lemma GetSubscriptionType_error (subType : string) (res : Z) (err : error) :
  GetSubscriptionType subType = (res, Some err) ->
  ~ known_type subType /\ err = UnsupportedSubscriptionType subType.
Proof.
  intros Hres. split.
  - intros Hk. apply GetSubscriptionType_known in Hk as [Hk _].
    rewrite Hres in Hk. discriminate.
  - unfold GetSubscriptionType in Hres. unfold UnsupportedSubscriptionType.
    repeat match type of Hres with
    | context [String.eqb ?a ?b] => destruct (String.eqb a b)
    end; simpl in Hres; congruence.
Qed.

Lemma resolves_exclusive_iff (wh : WebhookConfig) :
  resolves_exclusive wh
  <-> strings_ToLower (SubscriptionType wh) = "exclusive"
      \/ strings_ToLower (SubscriptionType wh) = "".
Proof.
  unfold resolves_exclusive, GetSubscriptionType.
  destruct (String.eqb_spec (strings_ToLower (SubscriptionType wh)) "exclusive")
    as [->|Hne1]; simpl; [tauto|].
  destruct (String.eqb_spec (strings_ToLower (SubscriptionType wh)) "")
    as [->|Hne2]; simpl; [tauto|].
  split; [|tauto].
  repeat match goal with
  | |- context [String.eqb ?a ?b] => destruct (String.eqb a b)
  end; discriminate.
Qed.

Lemma GetInitialPosition_known (pos : string) :
  known_position pos -> snd (GetInitialPosition pos) = None.
Proof.
  unfold known_position, GetInitialPosition.
  intros [-> | [-> | ->]]; reflexivity.
Qed.

Lemma GetInitialPosition_unknown (pos : string) :
  ~ known_position pos ->
  GetInitialPosition pos = ((-1)%Z, Some (InvalidInitialPosition pos)).
Proof.
  unfold known_position, GetInitialPosition. intros Hno.
  repeat match goal with
  | |- context [String.eqb ?a ?b] =>
      destruct (String.eqb_spec a b) as [Heq|_];
      [exfalso; apply Hno; rewrite Heq; auto|]
  end.
  reflexivity.
Qed.

Lemma GetInitialPosition_error (pos : string) (res : Z) (err : error) :
  GetInitialPosition pos = (res, Some err) ->
  ~ known_position pos /\ err = InvalidInitialPosition pos.
Proof.
  intros Hres. split.
  - intros Hk. apply GetInitialPosition_known in Hk.
    rewrite Hres in Hk. discriminate.
  - unfold GetInitialPosition in Hres. unfold InvalidInitialPosition.
    repeat match type of Hres with
    | context [String.eqb ?a ?b] => destruct (String.eqb a b)
    end; simpl in Hres; congruence.
Qed.

Lemma known_type_dec (subType : string) :
  known_type subType \/ ~ known_type subType.
Proof.
  unfold known_type.
  destruct (GetSubscriptionType subType) as [r [e|]] eqn:Hg.
  - right. eapply GetSubscriptionType_error, Hg.
  - left. unfold GetSubscriptionType in Hg.
    repeat match type of Hg with
    | context [String.eqb ?a ?b] =>
        destruct (String.eqb_spec a b) as [Heq|_]; [rewrite Heq; auto 6|]
    end.
    discriminate.
Qed.

Lemma known_position_dec (pos : string) :
  known_position pos \/ ~ known_position pos.
Proof.
  unfold known_position.
  destruct (GetInitialPosition pos) as [r [e|]] eqn:Hg.
  - right. eapply GetInitialPosition_error, Hg.
  - left. unfold GetInitialPosition in Hg.
    repeat match type of Hg with
    | context [String.eqb ?a ?b] =>
        destruct (String.eqb_spec a b) as [Heq|_]; [rewrite Heq; auto|]
    end.
    discriminate.
Qed.

(** The body of the loop goes one of the six ways. *)
Lemma ValidateWebhookConfig_body_outcome
    (exclusiveSubs : gmap string bool) (wh : WebhookConfig) :
  body_outcome exclusiveSubs wh (ValidateWebhookConfig_body exclusiveSubs wh).
Proof.
  unfold ValidateWebhookConfig_body.
  destruct (IsURL (URL wh)) eqn:Hurl; simpl; [|by constructor].
  destruct (String.eqb_spec (strings_TrimSpace (Subscription wh)) "")
    as [Hblank|Hname]; [by constructor|].
  destruct (GetSubscriptionType (SubscriptionType wh)) as [subType [err|]] eqn:Hty.
  { apply GetSubscriptionType_error in Hty as [Hunk ->]. by constructor. }
  assert (Hknown : known_type (SubscriptionType wh)).
  { destruct (known_type_dec (SubscriptionType wh)) as [Hk|Hk]; [exact Hk|].
    apply GetSubscriptionType_unknown in Hk. congruence. }
  assert (Hexcl : (subType =? pulsar_Exclusive)%Z = true <-> resolves_exclusive wh).
  { unfold resolves_exclusive. rewrite Hty, Z.eqb_eq.
    split; [intros ->; reflexivity | congruence]. }
  destruct (subType =? pulsar_Exclusive)%Z eqn:Hsub; simpl.
  - assert (Hres : resolves_exclusive wh) by (apply Hexcl; reflexivity).
    destruct (seen exclusiveSubs (Subscription wh)) eqn:Hseen.
    { by constructor. }
    assert (Hnodup : ~ (resolves_exclusive wh
                        /\ seen exclusiveSubs (Subscription wh) = true)).
    { rewrite Hseen. intros [_ ?]. discriminate. }
    destruct (GetInitialPosition (InitialPosition wh)) as [p [err|]] eqn:Hpos.
    + apply GetInitialPosition_error in Hpos as [Hunk ->].
      apply body_InvalidInitialPosition; auto. by constructor.
    + apply body_accepts; [|exact Hnodup|by constructor].
      repeat split; auto.
      destruct (known_position_dec (InitialPosition wh)) as [Hk|Hk]; [exact Hk|].
      apply GetInitialPosition_unknown in Hk. congruence.
  - assert (Hres : ~ resolves_exclusive wh).
    { intros Hr. apply Hexcl in Hr. discriminate. }
    destruct (GetInitialPosition (InitialPosition wh)) as [p [err|]] eqn:Hpos.
    + apply GetInitialPosition_error in Hpos as [Hunk ->].
      apply body_InvalidInitialPosition; auto; [tauto|by constructor].
    + apply body_accepts; [|tauto|by constructor].
      repeat split; auto.
      destruct (known_position_dec (InitialPosition wh)) as [Hk|Hk]; [exact Hk|].
      apply GetInitialPosition_unknown in Hk. congruence.
Qed.

Lemma seen_insert (exclusiveSubs : gmap string bool) (k n : string) :
  seen (<[k := true]> exclusiveSubs) n = true
  <-> n = k \/ seen exclusiveSubs n = true.
Proof.
  unfold seen. destruct (decide (k = n)) as [->|Hne].
  - rewrite lookup_insert_eq. simpl. tauto.
  - rewrite lookup_insert_ne by exact Hne. split; [tauto|].
    intros [->|Hs]; [congruence|exact Hs].
Qed.

Lemma seen_empty (n : string) : seen ∅ n = false.
Proof. unfold seen. rewrite lookup_empty. reflexivity. Qed.

Lemma exclusiveSubs_next_seen (exclusiveSubs exclusiveSubs' : gmap string bool)
    (wh : WebhookConfig) (n : string) :
  exclusiveSubs_next exclusiveSubs wh exclusiveSubs' ->
  seen exclusiveSubs' n = true
  <-> seen exclusiveSubs n = true
      \/ (resolves_exclusive wh /\ Subscription wh = n).
Proof.
  intros [Hres|Hres].
  - rewrite seen_insert. split.
    + intros [->|Hs]; auto.
    + intros [Hs|[_ <-]]; auto.
  - tauto.
Qed.

Lemma loop_accepts_head (exclusiveSubs : gmap string bool)
    (wh : WebhookConfig) (rest : list WebhookConfig) :
  ValidateWebhookConfig_loop exclusiveSubs (wh :: rest) = None ->
  fst (ValidateWebhookConfig_body exclusiveSubs wh) = None
  /\ ValidateWebhookConfig_loop
       (snd (ValidateWebhookConfig_body exclusiveSubs wh)) rest = None.
Proof.
  simpl. destruct (ValidateWebhookConfig_body exclusiveSubs wh) as [[e|] subs'];
    [discriminate|auto].
Qed.

(** Once the loop has accepted a prefix, it goes on with the rest from the
    set of names it has built. *)
Lemma loop_accepts_prefix (pre rest : list WebhookConfig) :
  forall exclusiveSubs : gmap string bool,
  ValidateWebhookConfig_loop exclusiveSubs pre = None ->
  ValidateWebhookConfig_loop exclusiveSubs (pre ++ rest)
  = ValidateWebhookConfig_loop (exclusiveSubs_after exclusiveSubs pre) rest.
Proof.
  induction pre as [|wh pre IH]; intros subs Hpre; [reflexivity|].
  apply loop_accepts_head in Hpre as [Hhead Htail].
  simpl. destruct (ValidateWebhookConfig_body subs wh) as [[e|] subs'];
    [discriminate|].
  apply IH, Htail.
Qed.

(** The names seen after an accepted prefix are those seen before it and
    those of its exclusive webhooks. *)
Lemma exclusiveSubs_after_seen (pre : list WebhookConfig) (n : string) :
  forall exclusiveSubs : gmap string bool,
  ValidateWebhookConfig_loop exclusiveSubs pre = None ->
  seen (exclusiveSubs_after exclusiveSubs pre) n = true
  <-> seen exclusiveSubs n = true \/ seen_exclusive pre n.
Proof.
  unfold seen_exclusive.
  induction pre as [|wh pre IH]; intros subs Hpre; simpl.
  - split; [auto|]. intros [Hs|[wh' [[] _]]]. exact Hs.
  - apply loop_accepts_head in Hpre as [Hhead Htail].
    pose proof (ValidateWebhookConfig_body_outcome subs wh) as Hout.
    destruct (ValidateWebhookConfig_body subs wh) as [e subs'].
    simpl in Hhead, Htail. subst e. simpl.
    inversion Hout as [| | | | |subs'' Hwf Hnodup Hnext]; subst.
    rewrite (IH _ Htail), (exclusiveSubs_next_seen _ _ _ n Hnext).
    split.
    + intros [[Hs|[Hres Hn]]|[wh' [Hin Hwh']]]; eauto 6.
    + intros [Hs|[wh' [[<-|Hin] [Hres Hn]]]]; eauto 6.
Qed.

(** A list the loop accepts is made of well-formed webhooks. *)
Lemma loop_accepts_well_formed (whs : list WebhookConfig) :
  forall exclusiveSubs : gmap string bool,
  ValidateWebhookConfig_loop exclusiveSubs whs = None ->
  Forall well_formed whs.
Proof.
  induction whs as [|wh whs IH]; intros subs Hloop; [constructor|].
  apply loop_accepts_head in Hloop as [Hhead Htail].
  pose proof (ValidateWebhookConfig_body_outcome subs wh) as Hout.
  destruct (ValidateWebhookConfig_body subs wh) as [e subs'].
  simpl in Hhead, Htail. subst e.
  inversion Hout; subst. constructor; [assumption|]. eapply IH, Htail.
Qed.

Lemma list_ascii_of_string_app (s t : string) :
  list_ascii_of_string (s ++ t)
  = (list_ascii_of_string s ++ list_ascii_of_string t)%list.
Proof.
  induction s as [|c s IH]; [reflexivity|].
  change (c :: list_ascii_of_string (s ++ t)
          = c :: (list_ascii_of_string s ++ list_ascii_of_string t)%list).
  rewrite IH. reflexivity.
Qed.

Lemma string_app_inv_tail (s1 s2 t : string) : s1 ++ t = s2 ++ t -> s1 = s2.
Proof.
  intros Heq. apply (f_equal list_ascii_of_string) in Heq.
  rewrite !list_ascii_of_string_app in Heq.
  apply app_inv_tail in Heq.
  rewrite <- (string_of_list_ascii_of_string s1),
          <- (string_of_list_ascii_of_string s2), Heq.
  reflexivity.
Qed.

Lemma DuplicateExclusiveSubscription_inj (a b : string) :
  DuplicateExclusiveSubscription a = DuplicateExclusiveSubscription b -> a = b.
Proof.
  unfold DuplicateExclusiveSubscription. intros Heq.
  injection Heq as Heq. apply String.app_inj in Heq.
  eapply string_app_inv_tail, Heq.
Qed.

(** The messages of the other four errors differ from that of a duplicate
    exclusive subscription in their first letter. *)
Lemma other_errors_not_duplicate (name : string) :
  (forall url, InvalidURL url <> DuplicateExclusiveSubscription name)
  /\ MissingSubscription <> DuplicateExclusiveSubscription name
  /\ (forall subType,
        UnsupportedSubscriptionType subType <> DuplicateExclusiveSubscription name)
  /\ (forall pos,
        InvalidInitialPosition pos <> DuplicateExclusiveSubscription name).
Proof.
  unfold InvalidURL, MissingSubscription, UnsupportedSubscriptionType,
    InvalidInitialPosition, DuplicateExclusiveSubscription.
  repeat split; repeat intro; discriminate.
Qed.

Lemma body_duplicate (exclusiveSubs : gmap string bool) (wh : WebhookConfig)
    (name : string) :
  fst (ValidateWebhookConfig_body exclusiveSubs wh)
    = Some (DuplicateExclusiveSubscription name) ->
  IsURL (URL wh) = true
  /\ strings_TrimSpace (Subscription wh) <> ""
  /\ resolves_exclusive wh
  /\ Subscription wh = name
  /\ seen exclusiveSubs name = true.
Proof.
  destruct (other_errors_not_duplicate name) as (Hu & Hm & Ht & Hp).
  destruct (ValidateWebhookConfig_body_outcome exclusiveSubs wh);
    simpl; intros Heq; [apply (inj Some) in Heq ..|discriminate];
    try (exfalso; eapply Hu; eassumption);
    try (exfalso; apply Hm; assumption);
    try (exfalso; eapply Ht; eassumption);
    try (exfalso; eapply Hp; eassumption).
  apply DuplicateExclusiveSubscription_inj in Heq. subst name. auto.
Qed.

(** The loop returns the error of a duplicate exclusive subscription exactly
    when it gets to an exclusive webhook, with a URL and a name that pass,
    whose name is in the set or is that of an exclusive webhook before it. *)
Lemma loop_duplicate_iff (whs : list WebhookConfig) (name : string) :
  forall exclusiveSubs : gmap string bool,
  ValidateWebhookConfig_loop exclusiveSubs whs
    = Some (DuplicateExclusiveSubscription name)
  <-> exists pre wh post,
        whs = (pre ++ wh :: post)%list
        /\ ValidateWebhookConfig_loop exclusiveSubs pre = None
        /\ IsURL (URL wh) = true
        /\ strings_TrimSpace (Subscription wh) <> ""
        /\ resolves_exclusive wh
        /\ Subscription wh = name
        /\ (seen exclusiveSubs name = true \/ seen_exclusive pre name).
Proof.
  intros subs. split.
  - revert subs. induction whs as [|wh whs IH]; intros subs Hloop;
      [discriminate|].
    pose proof (ValidateWebhookConfig_body_outcome subs wh) as Hout.
    simpl in Hloop.
    destruct (ValidateWebhookConfig_body subs wh) as [[e|] subs'] eqn:Hbody.
    + injection Hloop as ->.
      destruct (body_duplicate subs wh name)
        as (Hurl & Hname & Hres & Hn & Hseen); [rewrite Hbody; reflexivity|].
      exists [], wh, whs. repeat split; auto.
    + inversion Hout as [| | | | |? Hwf Hnodup Hnext]; subst.
      destruct (IH _ Hloop)
        as (pre & wh' & post & -> & Hpre & Hurl & Hname & Hres & Hn & Hseen).
      exists (wh :: pre), wh', post. repeat split; auto.
      * simpl. rewrite Hbody. exact Hpre.
      * rewrite (exclusiveSubs_next_seen _ _ _ name Hnext) in Hseen.
        unfold seen_exclusive in *.
        destruct Hseen as [[Hs|[Hr Hs]]|(w & Hin & Hw)]; [auto| |].
        -- right. exists wh. simpl. auto.
        -- right. exists w. simpl. auto.
  - intros (pre & wh & post & -> & Hpre & Hurl & Hname & Hres & Hn & Hseen).
    rewrite (loop_accepts_prefix _ _ _ Hpre).
    assert (Hs : seen (exclusiveSubs_after subs pre) (Subscription wh) = true).
    { rewrite Hn. apply exclusiveSubs_after_seen; assumption. }
    pose proof (ValidateWebhookConfig_body_outcome
                  (exclusiveSubs_after subs pre) wh) as Hout.
    simpl.
    destruct (ValidateWebhookConfig_body (exclusiveSubs_after subs pre) wh)
      as [e subs'].
    inversion Hout as [Hbad| |? ? Hunk| |? ? ? ? Hnodup|? ? Hnodup]; subst;
      try congruence; try (exfalso; apply Hnodup; auto; fail).
    exfalso. apply Hunk. apply resolves_exclusive_iff in Hres.
    unfold known_type. tauto.
Qed.

Lemma loop_error_prefix (pre rest : list WebhookConfig) (err : error) :
  forall exclusiveSubs : gmap string bool,
  ValidateWebhookConfig_loop exclusiveSubs pre = Some err ->
  ValidateWebhookConfig_loop exclusiveSubs (pre ++ rest) = Some err.
Proof.
  induction pre as [|wh pre IH]; intros subs Hpre; [discriminate|].
  simpl in *. destruct (ValidateWebhookConfig_body subs wh) as [[e|] subs'];
    [exact Hpre|]. apply IH, Hpre.
Qed.

Lemma loop_accepts_app (pre rest : list WebhookConfig)
    (exclusiveSubs : gmap string bool) :
  ValidateWebhookConfig_loop exclusiveSubs (pre ++ rest) = None ->
  ValidateWebhookConfig_loop exclusiveSubs pre = None.
Proof.
  intros Happ.
  destruct (ValidateWebhookConfig_loop exclusiveSubs pre) as [e|] eqn:Hpre;
    [|reflexivity].
  rewrite (loop_error_prefix _ rest _ _ Hpre) in Happ. discriminate.
Qed.

(** A list that [ValidateWebhookConfig] accepts has no collision. *)
Lemma accepted_no_collision (whs : list WebhookConfig) :
  ValidateWebhookConfig whs = None -> ~ collision whs.
Proof.
  unfold ValidateWebhookConfig.
  intros Hok (pre & wh & post & -> & Hres & Hseen).
  pose proof (loop_accepts_well_formed _ _ Hok) as Hwf.
  apply Forall_app in Hwf as [_ Hwf].
  apply Forall_cons in Hwf as [(Hurl & Hname & _) _].
  assert (Hdup : ValidateWebhookConfig_loop ∅ (pre ++ wh :: post)
                 = Some (DuplicateExclusiveSubscription (Subscription wh))).
  { apply loop_duplicate_iff. exists pre, wh, post.
    repeat split; auto. eapply loop_accepts_app, Hok. }
  congruence.
Qed.

(** C7 (amended). [ValidateWebhookConfig] fails with
    DuplicateExclusiveSubscription for [name] exactly when its scan, which
    stops at the first webhook that fails any check, gets to a webhook with a
    valid URL and a non-blank subscription name whose type resolves to
    exclusive and whose subscription name [name] is that of an earlier
    exclusive webhook.  The webhooks before it hold no collision, so the
    collision reported is the first; and a list with no two exclusive
    webhooks of the same subscription name never fails with this error. *)
Theorem ValidateWebhookConfig_duplicate_reached
    (whs : list WebhookConfig) (name : string) :
  (ValidateWebhookConfig whs = Some (DuplicateExclusiveSubscription name)
   <-> collision_reached whs name)
  /\ (forall pre wh post,
        whs = (pre ++ wh :: post)%list ->
        ValidateWebhookConfig pre = None ->
        ~ collision pre)
  /\ (~ collision whs ->
      ValidateWebhookConfig whs <> Some (DuplicateExclusiveSubscription name)).
Proof.
  assert (Hiff : ValidateWebhookConfig whs
                   = Some (DuplicateExclusiveSubscription name)
                 <-> collision_reached whs name).
  { unfold ValidateWebhookConfig, collision_reached.
    rewrite loop_duplicate_iff. rewrite seen_empty.
    split; intros (pre & wh & post & Hrest); exists pre, wh, post;
      intuition discriminate. }
  split; [exact Hiff|]. split.
  - intros pre wh post _ Hpre. apply accepted_no_collision, Hpre.
  - intros Hno Hdup. apply Hno. apply Hiff in Hdup.
    destruct Hdup as (pre & wh & post & -> & _ & _ & _ & Hres & <- & Hseen).
    exists pre, wh, post. auto.
Qed.



(** [ValidateTopicConfig] returns the key that [NewTopicConfig] stores in
    the topic it builds from the same full name and Pulsar URL. *)
Lemma ValidateTopicConfig_NewTopicConfig (now1 now2 : time_Time)
    (topicFullName pulsarURL token : string) :
  let cfg := fst (NewTopicConfig now1 now2 topicFullName pulsarURL token) in
  ValidateTopicConfig cfg = (Key cfg, None).
Proof. reflexivity. Qed.

(** C3 (amended). When the webhooks of a topic pass [ValidateWebhookConfig],
    [ValidateTopicConfig] succeeds with the key derived from the pair (topic
    full name, Pulsar URL); when they fail, it fails with the same error and
    an empty key. *)
Theorem ValidateTopicConfig_key (top : TopicConfig) :
  (ValidateWebhookConfig (Webhooks top) = None ->
   ValidateTopicConfig top
     = (GenKey (TopicFullName top) (PulsarURL top), None))
  /\ (forall err,
        ValidateWebhookConfig (Webhooks top) = Some err ->
        ValidateTopicConfig top = ("", Some err)).
Proof.
  unfold ValidateTopicConfig. split.
  - intros ->. reflexivity.
  - intros err ->. reflexivity.
Qed.

End model_properties.

Lemma ValidateWebhookConfig_duplicate_reached_witness :
  ValidateWebhookConfig (H := ascii_library) two_exclusive_sub1
  = Some (DuplicateExclusiveSubscription "sub1").
Proof.
  apply (proj2 (proj1
    (ValidateWebhookConfig_duplicate_reached (H := ascii_library)
       two_exclusive_sub1 "sub1"))).
  exists [webhook "https://example.com/hook" "sub1" "exclusive" "latest"],
         (webhook "https://example.com/other" "sub1" "Exclusive" ""), [].
  split; [reflexivity|]. split; [vm_compute; reflexivity|].
  split; [vm_compute; reflexivity|]. split; [vm_compute; discriminate|].
  split; [vm_compute; reflexivity|]. split; [reflexivity|].
  exists (webhook "https://example.com/hook" "sub1" "exclusive" "latest").
  split; [left; reflexivity|]. split; [vm_compute; reflexivity|reflexivity].
Defined.

(** The list [hidden_collision] has two exclusive webhooks named [sub1], and
    [ValidateWebhookConfig] fails on it with the error of the webhook between
    them, not with DuplicateExclusiveSubscription. *)
Lemma collision_hidden_by_earlier_error :
  collision (H := ascii_library) hidden_collision
  /\ ValidateWebhookConfig (H := ascii_library) hidden_collision
     = Some (InvalidInitialPosition "middle")
  /\ ~ (exists name,
          ValidateWebhookConfig (H := ascii_library) hidden_collision
          = Some (DuplicateExclusiveSubscription name)).
Proof.
  assert (Hres : ValidateWebhookConfig (H := ascii_library) hidden_collision
                 = Some (InvalidInitialPosition "middle")).
  { vm_compute. reflexivity. }
  split; [|split; [exact Hres|]].
  - exists [webhook "https://example.com/a" "sub1" "exclusive" "latest";
            webhook "https://example.com/b" "sub2" "shared" "middle"],
           (webhook "https://example.com/c" "sub1" "exclusive" "latest"), [].
    split; [reflexivity|]. split; [vm_compute; reflexivity|].
    exists (webhook "https://example.com/a" "sub1" "exclusive" "latest").
    split; [left; reflexivity|]. split; [vm_compute; reflexivity|reflexivity].
  - intros [name Hdup]. rewrite Hres in Hdup.
    apply (inj Some) in Hdup.
    destruct (other_errors_not_duplicate name) as (_ & _ & _ & Hp).
    eapply Hp, Hdup.
Qed.

Example shared_and_exclusive_accepted :
  ValidateWebhookConfig (H := ascii_library) shared_and_exclusive = None.
Proof. vm_compute. reflexivity. Qed.



(** On [events_topic], which has no webhooks, [ValidateTopicConfig] succeeds,
    and its key is not the one derived from the pair (tenant, topic full
    name). *)
Lemma ValidateTopicConfig_not_tenant_pair :
  ValidateWebhookConfig (H := ascii_library) (Webhooks events_topic) = None
  /\ ValidateTopicConfig (H := ascii_library) events_topic
     = ("6218c8b118415d7dab9022f23b99be0dd3a5bc88", None)
  /\ GenKey (Tenant events_topic) (TopicFullName events_topic)
     = "93a08912c4a4081a97164bb0a02fa1837bcfcf05"
  /\ ValidateTopicConfig (H := ascii_library) events_topic
     <> (GenKey (Tenant events_topic) (TopicFullName events_topic), None).
Proof.
  split; [reflexivity|].
  split; [vm_compute; reflexivity|].
  split; [vm_compute; reflexivity|].
  vm_compute. discriminate.
Qed.

Lemma ValidateTopicConfig_key_witness :
  ValidateTopicConfig (H := ascii_library) events_topic
  = (GenKey "persistent://t1/ns/events" "pulsar://broker:6650", None).
Proof.
  apply (proj1 (ValidateTopicConfig_key (H := ascii_library) events_topic)).
  reflexivity.
Defined.

(* ===================================================================== *)
(** * Properties: the store                                               *)
(* ===================================================================== *)

Section db_properties.

Context `{GoLibrary} `{PackageDb}.

Lemma keyed_by_ID_empty : keyed_by_ID ∅.
Proof. intros k doc Hk. rewrite lookup_empty in Hk. discriminate. Qed.

Lemma keyed_by_ID_insert (m : gmap string FunctionConfig) (doc : FunctionConfig) :
  keyed_by_ID m -> keyed_by_ID (<[fc_ID doc := doc]> m).
Proof.
  intros Hm k d. rewrite lookup_insert.
  case_decide as Hk; [|apply Hm]. intros [= <-]. exact Hk.
Qed.

Lemma keyed_by_ID_delete (m : gmap string FunctionConfig) (k : string) :
  keyed_by_ID m -> keyed_by_ID (delete k m).
Proof.
  intros Hm k' d. rewrite lookup_delete.
  case_decide; [discriminate|apply Hm].
Qed.

Lemma keyed_by_ID_foldRecord (m : gmap string FunctionConfig) (doc : FunctionConfig) :
  keyed_by_ID m -> keyed_by_ID (foldRecord doc m).
Proof.
  intros Hm. unfold foldRecord.
  destruct (negb _); [apply keyed_by_ID_insert|apply keyed_by_ID_delete]; exact Hm.
Qed.

Lemma updateCacheAndPulsar_keyed (send : option error)
    (functionCfg : FunctionConfig) (s : PulsarHandler) :
  keyed_by_ID (topics s) ->
  keyed_by_ID (topics (snd (updateCacheAndPulsar send functionCfg s))).
Proof.
  intros Hs. unfold updateCacheAndPulsar.
  destruct (json_Marshal functionCfg); [|exact Hs].
  destruct send; [exact Hs|]. simpl. apply keyed_by_ID_insert, Hs.
Qed.

Lemma Create_keyed (now : time_Time) (send : option error)
    (functionCfg : FunctionConfig) (s : PulsarHandler) :
  keyed_by_ID (topics s) ->
  keyed_by_ID (topics (snd (Create now send functionCfg s))).
Proof.
  intros Hs. unfold Create.
  destruct (getKey functionCfg) as [key [err|]]; [exact Hs|].
  destruct (topics s !! key); [exact Hs|].
  apply updateCacheAndPulsar_keyed, Hs.
Qed.

Lemma Update_keyed (now : time_Time) (send : option error)
    (functionCfg : FunctionConfig) (s : PulsarHandler) :
  keyed_by_ID (topics s) ->
  keyed_by_ID (topics (snd (Update now send functionCfg s))).
Proof.
  intros Hs. unfold Update.
  destruct (getKey functionCfg) as [key [err|]] eqn:Hkey; [exact Hs|].
  destruct (topics s !! key) eqn:Hlook.
  - apply updateCacheAndPulsar_keyed, Hs.
  - apply Create_keyed, Hs.
Qed.

Lemma DeleteByKey_keyed (send : option error) (key : string)
    (s : PulsarHandler) :
  keyed_by_ID (topics s) ->
  keyed_by_ID (topics (snd (DeleteByKey send key s))).
Proof.
  intros Hs. unfold DeleteByKey.
  destruct (topics s !! key); [|exact Hs].
  destruct (json_Marshal _); [|exact Hs].
  destruct send; [exact Hs|]. simpl. apply keyed_by_ID_delete, Hs.
Qed.

Lemma run_deferred_topics (deferred : nat) :
  forall s s' : PulsarHandler,
  run_deferred deferred s = Some s' -> topics s' = topics s.
Proof.
  induction deferred as [|n IH]; intros s s' Hrun; simpl in Hrun.
  - injection Hrun as <-. reflexivity.
  - destruct (topicsLock s); [|discriminate].
    apply IH in Hrun. exact Hrun.
Qed.

Lemma dbListener_loop_keyed (stream : list ReaderNext) :
  forall (deferred : nat) (s : PulsarHandler),
  keyed_by_ID (topics s) ->
  keyed_by_ID (topics (snd (dbListener_loop stream deferred s))).
Proof.
  induction stream as [|[payload|err] rest IH]; intros deferred s Hs; simpl.
  - exact Hs.
  - destruct (json_Unmarshal payload) as [doc|_]; [|apply IH, Hs].
    destruct (topicsLock s); [exact Hs|].
    apply IH. simpl. apply keyed_by_ID_foldRecord, Hs.
  - destruct (run_deferred deferred s) as [s'|] eqn:Hrun; [|exact Hs].
    simpl. rewrite (run_deferred_topics _ _ _ Hrun). exact Hs.
Qed.

(** In every state of the store, each cached document is stored under its
    own ID. *)
Lemma reachable_keyed_by_ID (s : PulsarHandler) :
  reachable s -> keyed_by_ID (topics s).
Proof.
  induction 1 as [newClient createProducer| | | | |].
  - destruct newClient, createProducer; apply keyed_by_ID_empty.
  - apply Create_keyed; assumption.
  - apply Update_keyed; assumption.
  - apply DeleteByKey_keyed; assumption.
  - unfold Delete. simpl. apply DeleteByKey_keyed; assumption.
  - apply dbListener_loop_keyed; assumption.
Qed.

Lemma foldRecord_cases (doc : FunctionConfig) (m : gmap string FunctionConfig) :
  (FunctionStatus doc <> Deleted /\ foldRecord doc m = <[fc_ID doc := doc]> m)
  \/ (FunctionStatus doc = Deleted /\ foldRecord doc m = delete (fc_ID doc) m).
Proof.
  unfold foldRecord.
  destruct (Z.eqb_spec (FunctionStatus doc) Deleted) as [Heq|Hne]; simpl; auto.
Qed.

Lemma foldRecord_twice (doc : FunctionConfig) (m : gmap string FunctionConfig) :
  foldRecord doc (foldRecord doc m) = foldRecord doc m.
Proof.
  destruct (foldRecord_cases doc m) as [[Hs Hm]|[Hs Hm]];
    destruct (foldRecord_cases doc (foldRecord doc m)) as [[Hs' Hm']|[Hs' Hm']];
    try contradiction; rewrite Hm', Hm.
  - apply insert_insert_eq.
  - apply delete_delete_eq.
Qed.

(** C10. Folding a decoded record into the cache a second time changes
    nothing, for every cache and every record: a record with status Deleted
    evicts its key, any other record is stored under its key, and doing
    either twice is doing it once. *)
Theorem foldRecord_idempotent (doc : FunctionConfig)
    (m : gmap string FunctionConfig) :
  foldRecord doc (foldRecord doc m) = foldRecord doc m
  /\ (FunctionStatus doc = Deleted -> foldRecord doc m = delete (fc_ID doc) m)
  /\ (FunctionStatus doc <> Deleted ->
      foldRecord doc m = <[fc_ID doc := doc]> m).
Proof.
  split; [apply foldRecord_twice|].
  destruct (foldRecord_cases doc m) as [[Hs Hm]|[Hs Hm]];
    split; intros Hs'; try contradiction; exact Hm.
Qed.

(** The same through the listener: a run that decodes the record and then
    loses its reader, started twice, leaves the cache of a single run. *)
Lemma dbListener_replay_once (payload : Payload) (doc : FunctionConfig)
    (e1 e2 : error) (s : PulsarHandler) :
  json_Unmarshal payload = inl doc ->
  topicsLock s = false ->
  let run e := (None, [Next_msg payload; Next_err e]) in
  supervisor [run e1] s
    = (Terminated e1, set_topics (foldRecord doc (topics s)) s)
  /\ supervisor [run e1; run e2] s
     = (Terminated e2, set_topics (foldRecord doc (topics s)) s).
Proof.
  intros Hdoc Hlock run. subst run.
  destruct s as [m l p]. simpl in Hlock. subst l.
  assert (Hrun : forall (e : error) (m' : gmap string FunctionConfig),
            dbListener None [Next_msg payload; Next_err e]
              {| topics := m'; topicsLock := false; producer := p |}
            = (Terminated e,
               {| topics := foldRecord doc m'; topicsLock := false;
                  producer := p |})).
  { intros e m'. unfold dbListener. simpl. rewrite Hdoc. reflexivity. }
  unfold set_topics. cbn [supervisor topics topicsLock producer].
  rewrite !Hrun. rewrite foldRecord_twice. auto.
Qed.

(** [Update] of a document whose key is cached is [updateCacheAndPulsar] of
    the document that was passed in: the copy [v] of the cached document,
    with its new status and its new UpdatedAt, is not used. *)
Lemma Update_existing (now : time_Time) (send : option error)
    (functionCfg v : FunctionConfig) (key : string) (s : PulsarHandler) :
  getKey functionCfg = (key, None) ->
  topics s !! key = Some v ->
  Update now send functionCfg s = updateCacheAndPulsar send functionCfg s.
Proof. intros Hkey Hv. unfold Update. rewrite Hkey, Hv. reflexivity. Qed.

(** [Update] of a document whose key is not cached is [Create]. *)
Lemma Update_absent (now : time_Time) (send : option error)
    (functionCfg : FunctionConfig) (key : string) (s : PulsarHandler) :
  getKey functionCfg = (key, None) ->
  topics s !! key = None ->
  Update now send functionCfg s = Create now send functionCfg s.
Proof. intros Hkey Hv. unfold Update. rewrite Hkey, Hv. reflexivity. Qed.

(** When [Update] of a cached key succeeds with a document whose ID field is
    not that key, the document cached under the key stays as it was. *)
Lemma Update_existing_other_ID (now : time_Time) (functionCfg v : FunctionConfig)
    (key : string) (data : Payload) (s : PulsarHandler) :
  getKey functionCfg = (key, None) ->
  topics s !! key = Some v ->
  json_Marshal functionCfg = inl data ->
  fc_ID functionCfg <> key ->
  fst (Update now None functionCfg s) = (fc_ID functionCfg, None)
  /\ GetByKey key (snd (Update now None functionCfg s)) = (v, None).
Proof.
  intros Hkey Hv Hdata Hid.
  rewrite (Update_existing _ _ _ _ _ _ Hkey Hv).
  unfold updateCacheAndPulsar, GetByKey. rewrite Hdata. simpl.
  rewrite lookup_insert_ne by exact Hid. rewrite Hv. auto.
Qed.

(** When its ID field is the key, the document is cached as it was passed
    in, with the UpdatedAt the caller gave it. *)
Lemma Update_existing_same_ID (now : time_Time) (functionCfg v : FunctionConfig)
    (key : string) (data : Payload) (s : PulsarHandler) :
  getKey functionCfg = (key, None) ->
  topics s !! key = Some v ->
  json_Marshal functionCfg = inl data ->
  fc_ID functionCfg = key ->
  GetByKey key (snd (Update now None functionCfg s)) = (functionCfg, None).
Proof.
  intros Hkey Hv Hdata Hid.
  rewrite (Update_existing _ _ _ _ _ _ Hkey Hv).
  unfold updateCacheAndPulsar, GetByKey. rewrite Hdata. simpl.
  rewrite Hid, lookup_insert_eq. reflexivity.
Qed.


Lemma Load_loop_results (v : loc) (visit : list (string * FunctionConfig)) :
  forall (results : list loc) (heap : gmap loc FunctionConfig),
  fst (Load_loop v visit results heap) = (results ++ replicate (length visit) v)%list.
Proof.
  induction visit as [|[k doc] rest IH]; intros results heap; simpl.
  - rewrite app_nil_r. reflexivity.
  - rewrite IH, <- app_assoc. reflexivity.
Qed.

Lemma Load_loop_heap (v : loc) (visit : list (string * FunctionConfig)) :
  forall (results : list loc) (heap : gmap loc FunctionConfig),
  snd (Load_loop v visit results heap) !! v
  = match last visit with
    | Some (_, doc) => Some doc
    | None => heap !! v
    end.
Proof.
  induction visit as [|[k doc] rest IH]; intros results heap; [reflexivity|].
  simpl Load_loop. rewrite IH. destruct rest as [|p rest'].
  - simpl. apply lookup_insert_eq.
  - rewrite last_cons_cons.
    destruct (last (p :: rest')) as [[? ?]|] eqn:Hlast; [reflexivity|].
    apply last_None in Hlast. discriminate.
Qed.

(** Every pointer that [Load] returns is the address of the loop variable,
    which holds the document visited last. *)
Lemma Load_documents_last (visit : list (string * FunctionConfig))
    (k : string) (doc : FunctionConfig) :
  last visit = Some (k, doc) ->
  Load_documents visit = replicate (length visit) (Some doc).
Proof.
  intros Hlast. unfold Load_documents, Load. simpl.
  pose proof (Load_loop_results 0%nat visit [] {[0%nat := FunctionConfig_zero]})
    as Hres.
  pose proof (Load_loop_heap 0%nat visit [] {[0%nat := FunctionConfig_zero]})
    as Hheap.
  destruct (Load_loop 0%nat visit [] _) as [results heap].
  simpl in Hres, Hheap. subst results. rewrite Hlast in Hheap.
  unfold deref. simpl. induction (length visit) as [|n IH]; simpl; [reflexivity|].
  rewrite Hheap, IH. reflexivity.
Qed.

Lemma Load_documents_nil : Load_documents [] = [].
Proof. reflexivity. Qed.

(** [Load] returns as many pointers as the cache has documents. *)
Lemma Load_documents_length (s : PulsarHandler)
    (visit : list (string * FunctionConfig)) :
  range_order s visit ->
  length (Load_documents visit) = size (topics s).
Proof.
  intros Horder. unfold Load_documents, Load, deref. simpl.
  pose proof (Load_loop_results 0%nat visit [] {[0%nat := FunctionConfig_zero]})
    as Hres.
  destruct (Load_loop 0%nat visit [] _) as [results heap]. simpl in Hres.
  subst results. rewrite length_map, length_replicate.
  unfold range_order in Horder. rewrite Horder. apply length_map_to_list.
Qed.

(** Whatever the order of the visit, a document that [Load] returns is
    cached. *)
Lemma Load_documents_cached (s : PulsarHandler)
    (visit : list (string * FunctionConfig)) (d : option FunctionConfig) :
  range_order s visit ->
  In d (Load_documents visit) ->
  exists k doc, d = Some doc /\ topics s !! k = Some doc.
Proof.
  intros Horder Hin.
  destruct (last visit) as [[k doc]|] eqn:Hlast.
  - rewrite (Load_documents_last _ _ _ Hlast) in Hin.
    apply list_elem_of_In, elem_of_replicate in Hin as [-> _].
    exists k, doc. split; [reflexivity|].
    apply elem_of_map_to_list. unfold range_order in Horder.
    rewrite <- Horder. apply last_Some in Hlast as [pre ->].
    apply elem_of_app. right. apply list_elem_of_singleton. reflexivity.
  - apply last_None in Hlast. subst visit. destruct Hin.
Qed.

(** With a variable for each turn, the pointers would refer to the documents
    of the cache, one for each, in the order of the visit. *)
Lemma Load_loop_per_turn_documents (visit : list (string * FunctionConfig)) :
  forall (next : loc) (results : list loc) (heap : gmap loc FunctionConfig),
  (forall p, In p results -> (p < next)%nat) ->
  let '(results', heap') := Load_loop_per_turn next visit results heap in
  deref heap' results' = (deref heap results ++ map (fun e => Some (snd e)) visit)%list.
Proof.
  induction visit as [|[k doc] rest IH]; intros next results heap Hold; simpl.
  - rewrite app_nil_r. reflexivity.
  - specialize (IH (S next) (results ++ [next])%list (<[next := doc]> heap)).
    destruct (Load_loop_per_turn (S next) rest _ _) as [results' heap'].
    rewrite IH.
    + unfold deref. rewrite map_app. simpl. rewrite lookup_insert_eq.
      rewrite <- app_assoc. simpl. f_equal.
      apply map_ext_in. intros p Hp.
      apply lookup_insert_ne. specialize (Hold p Hp). lia.
    + intros p Hp. apply in_app_or in Hp as [Hp|[<-|[]]]; [|lia].
      specialize (Hold p Hp). lia.
Qed.

Lemma Delete_DeleteByKey (send : option error) (tenant functionName : string)
    (s : PulsarHandler) :
  Delete send tenant functionName s
  = DeleteByKey send (GenKey tenant functionName) s.
Proof. reflexivity. Qed.

(** A copy with another status is what the assignment of the status
    gives. *)
Lemma copy_with_status_assigned (status : Status) (v copy : FunctionConfig) :
  copy_with_status status v copy <-> copy = set_FunctionStatus status v.
Proof.
  split.
  - destruct v, copy. unfold copy_with_status, set_FunctionStatus. simpl.
    intros (-> & -> & -> & -> & -> & -> & -> & -> & -> & -> & -> & -> & ->
            & -> & -> & ->).
    reflexivity.
  - intros ->. unfold copy_with_status. simpl. repeat split.
Qed.

(** C5. In every state of the store, [DeleteByKey] of a key that is not
    cached fails with [DocNotFound] and leaves the store as it was.  For a
    cached key it encodes the tombstone of the cached document: the document
    whose status is Deleted and whose other fields are those of the cached
    one.  When the message, which carries this encoding and is keyed by the
    key, is sent, it is added to the log and the key is evicted, after which
    [GetByKey] of the key fails with [DocNotFound] and every document [Load]
    returns is cached under another key; when the encoding or the sending
    fails, the store is as it was.  [Delete] is [DeleteByKey] of the key of
    its two names. *)
Theorem DeleteByKey_tombstone (send : option error) (key : string)
    (s : PulsarHandler) :
  reachable s ->
  (topics s !! key = None ->
   DeleteByKey send key s = (("", Some (Errorf DocNotFound)), s))
  /\ (forall v,
        topics s !! key = Some v ->
        (exists tombstone,
           FunctionStatus tombstone = Deleted
           /\ copy_with_status Deleted v tombstone)
        /\ (forall tombstone,
              copy_with_status Deleted v tombstone ->
              (forall data,
                 json_Marshal tombstone = inl data -> send = None ->
                 let s' := snd (DeleteByKey send key s) in
                 fst (DeleteByKey send key s) = (key, None)
                 /\ producer s'
                    = (producer s
                         ++ [{| msg_Payload := data; msg_Key := key |}])%list
                 /\ topics s' = delete key (topics s)
                 /\ GetByKey key s'
                    = (FunctionConfig_zero, Some (Errorf DocNotFound))
                 /\ (forall visit d,
                       range_order s' visit -> In d (Load_documents visit) ->
                       exists k doc,
                         d = Some doc /\ k <> key /\ fc_ID doc <> key
                         /\ topics s' !! k = Some doc))
              /\ (forall data err,
                    json_Marshal tombstone = inl data -> send = Some err ->
                    DeleteByKey send key s = (("", Some err), s))
              /\ (forall err,
                    json_Marshal tombstone = inr err ->
                    DeleteByKey send key s = (("", Some err), s))))
  /\ (forall tenant functionName,
        Delete send tenant functionName s
        = DeleteByKey send (GenKey tenant functionName) s).
Proof.
  intros Hreach. pose proof (reachable_keyed_by_ID s Hreach) as Hkeyed.
  split; [|split].
  - intros Hnone. unfold DeleteByKey. rewrite Hnone. reflexivity.
  - intros v Hv. split.
    { exists (set_FunctionStatus Deleted v).
      split; [reflexivity|]. apply copy_with_status_assigned. reflexivity. }
    intros tombstone Htomb.
    apply copy_with_status_assigned in Htomb.
    assert (Hid : fc_ID tombstone = key).
    { rewrite Htomb. apply (Hkeyed key v Hv). }
    unfold DeleteByKey. rewrite Hv. rewrite <- Htomb. rewrite Hid.
    split; [|split].
    + intros data -> ->. simpl.
      assert (Hgone : delete key (topics s) !! key = None)
        by apply lookup_delete_eq.
      repeat split.
      * unfold GetByKey. simpl. rewrite Hgone. reflexivity.
      * intros visit d Horder Hin.
        destruct (Load_documents_cached _ visit d Horder Hin)
          as (k & doc & -> & Hdoc).
        simpl in Hdoc.
        assert (Hk : k <> key) by (intros ->; congruence).
        exists k, doc. repeat split; auto.
        rewrite lookup_delete_ne in Hdoc by congruence.
        rewrite (Hkeyed k doc Hdoc). exact Hk.
    + intros data err -> ->. reflexivity.
    + intros err ->. reflexivity.
  - intros tenant functionName. apply Delete_DeleteByKey.
Qed.

(** Once a record has been decoded and folded, the next record that decodes
    finds [topicsLock] locked, the unlock being deferred to the return of
    [dbListener]: the run stays in [Lock], whatever follows. *)
Lemma dbListener_second_record_blocks (payload1 payload2 : Payload)
    (doc1 doc2 : FunctionConfig) (rest : list ReaderNext) (s : PulsarHandler) :
  topicsLock s = false ->
  json_Unmarshal payload1 = inl doc1 ->
  json_Unmarshal payload2 = inl doc2 ->
  dbListener None (Next_msg payload1 :: Next_msg payload2 :: rest) s
  = (Blocked,
     set_topics (foldRecord doc1 (topics s)) (set_topicsLock true s)).
Proof.
  intros Hlock H1 H2. unfold dbListener. simpl.
  rewrite H1, Hlock. simpl. rewrite H2. reflexivity.
Qed.

Lemma dbListener_loop_locked (stream : list ReaderNext) :
  forall (deferred : nat) (s : PulsarHandler),
  topicsLock s = true ->
  topics (snd (dbListener_loop stream deferred s)) = topics s.
Proof.
  induction stream as [|[payload|err] rest IH]; intros deferred s Hlock; simpl.
  - reflexivity.
  - destruct (json_Unmarshal payload) as [doc|_]; [|apply IH, Hlock].
    rewrite Hlock. reflexivity.
  - destruct (run_deferred deferred s) as [s'|] eqn:Hrun; [|reflexivity].
    simpl. apply (run_deferred_topics _ _ _ Hrun).
Qed.

(** A run of the listener folds one record at most: the first that decodes.
    The records after it are not folded, whatever they are. *)
Lemma dbListener_folds_first_only (stream : list ReaderNext)
    (s : PulsarHandler) :
  topicsLock s = false ->
  topics (snd (dbListener None stream s))
  = match first_decoded stream with
    | Some doc => foldRecord doc (topics s)
    | None => topics s
    end.
Proof.
  intros Hlock. unfold dbListener.
  induction stream as [|[payload|err] rest IH]; simpl.
  - reflexivity.
  - destruct (json_Unmarshal payload) as [doc|_]; [|exact IH].
    rewrite Hlock. rewrite dbListener_loop_locked by reflexivity.
    reflexivity.
  - reflexivity.
Qed.

(** A run that is blocked is not started again. *)
Lemma supervisor_blocked (createReader : option error)
    (stream : list ReaderNext) (later : list (option error * list ReaderNext))
    (s s' : PulsarHandler) :
  dbListener createReader stream s = (Blocked, s') ->
  supervisor ((createReader, stream) :: later) s = (Blocked, s').
Proof. intros Hrun. simpl. rewrite Hrun. reflexivity. Qed.

(** The cache transition alone, on a record that is not deleted followed by
    a deleted record of the same ID, leaves no entry for that ID. *)
Lemma foldRecord_then_deleted (docA docD : FunctionConfig)
    (m : gmap string FunctionConfig) :
  fc_ID docD = fc_ID docA ->
  FunctionStatus docD = Deleted ->
  foldRecord docD (foldRecord docA m) !! fc_ID docA = None.
Proof.
  intros Hid Hdel. unfold foldRecord at 1. rewrite Hdel, Hid. simpl.
  apply lookup_delete_eq.
Qed.

End db_properties.

Example key_fn1_fn2 :
  GenKey "t1" "fn1" = key_fn1 /\ GenKey "t1" "fn2" = key_fn2.
Proof. split; vm_compute; reflexivity. Qed.

Example store_fn1_cache :
  GetByKey (H0 := names_db) key_fn1 store_fn1 = (fn1_created, None)
  /\ producer store_fn1
     = [@Build_ProducerMessage ascii_library fn1_created key_fn1].
Proof. split; vm_compute; reflexivity. Qed.

(** C1, on the scenario of the specification.  [fn1] is created at time 100;
    at time 200 it is updated with the status Activated by a document that,
    like the first, carries no ID.  [Update] succeeds and returns the empty
    ID of that document; under the key of [fn1] the cache still holds the
    document created at time 100, with status Deactivated and UpdatedAt 100;
    the new document is cached under the empty key, with the UpdatedAt it
    came with.  When the document sent carries the key as its ID, it is
    cached under the key with status Activated, and its UpdatedAt is still
    100, not the time of the update. *)
Theorem Update_fn1_activated :
  getKey (PackageDb := names_db) fn1_activated_request = (key_fn1, None)
  /\ GetByKey (H0 := names_db) key_fn1 store_fn1 = (fn1_created, None)
  /\ fst (Update (H0 := names_db) 200 None fn1_activated_request store_fn1)
     = ("", None)
  /\ (let s := snd (Update (H0 := names_db) 200 None fn1_activated_request
                     store_fn1) in
      GetByKey (H0 := names_db) key_fn1 s = (fn1_created, None)
      /\ FunctionStatus (fst (GetByKey (H0 := names_db) key_fn1 s)) = Deactivated
      /\ fc_UpdatedAt (fst (GetByKey (H0 := names_db) key_fn1 s)) = 100%Z
      /\ GetByKey (H0 := names_db) "" s = (fn1_activated_request, None)
      /\ fc_UpdatedAt fn1_activated_request = time_zero)
  /\ (let s := snd (Update (H0 := names_db) 200 None fn1_activated_with_ID
                     store_fn1) in
      GetByKey (H0 := names_db) key_fn1 s = (fn1_activated_with_ID, None)
      /\ FunctionStatus (fst (GetByKey (H0 := names_db) key_fn1 s)) = Activated
      /\ fc_UpdatedAt (fst (GetByKey (H0 := names_db) key_fn1 s)) = 100%Z).
Proof. repeat split; vm_compute; reflexivity. Qed.

(** C2, on a cache of two documents.  Both orders of visit are possible
    orders of [range]; in each, the two pointers [Load] returns refer to the
    same document, the one visited last, and the other document of the cache
    is not returned. *)
Theorem Load_two_documents :
  let first := (key_fn1, fn1_created) in
  let second := (key_fn2, fn2_created) in
  fn1_created <> fn2_created
  /\ range_order store_fn1_fn2 [first; second]
  /\ range_order store_fn1_fn2 [second; first]
  /\ fst (fst (Load [first; second])) = [0%nat; 0%nat]
  /\ Load_documents [first; second] = [Some fn2_created; Some fn2_created]
  /\ Load_documents [second; first] = [Some fn1_created; Some fn1_created].
Proof.
  intros first second.
  assert (Horder : range_order store_fn1_fn2 [second; first]).
  { unfold range_order.
    assert (Htopics : topics store_fn1_fn2
                      = <[key_fn2 := fn2_created]> (<[key_fn1 := fn1_created]> ∅)).
    { unfold store_fn1_fn2, store_fn1, Create, fn2_request, fn1_request.
      cbn [getKey names_db GetKeyFromNames function_doc fc_Tenant fc_Name
           set_FunctionStatus set_ID set_Tenant].
      destruct key_fn1_fn2 as [-> ->].
      reflexivity. }
    rewrite Htopics.
    rewrite map_to_list_insert by (vm_compute; reflexivity).
    rewrite map_to_list_insert by apply lookup_empty.
    rewrite map_to_list_empty. reflexivity. }
  split; [discriminate|].
  split; [unfold range_order in *; rewrite <- Horder; apply perm_swap|].
  split; [exact Horder|].
  repeat split; vm_compute; reflexivity.
Qed.

(** C6, on the scenario of the specification.  The reader delivers, for the
    key of [fn1], an activated record and then a deleted record.  The
    listener folds the first and stays in [Lock] on the second; however many
    further starts are planned, none happens, and the cache keeps the entry
    of the key. *)
Theorem dbListener_activated_deleted :
  let stream := fn1_stream in
  fst (dbListener None stream store_Init) = Blocked
  /\ (forall later,
        supervisor ((None, stream) :: later) store_Init
        = dbListener None stream store_Init)
  /\ (let s := snd (dbListener None stream store_Init) in
      topicsLock s = true
      /\ GetByKey (H0 := names_db) key_fn1 s = (fn1_activated_record, None)).
Proof.
  intros stream.
  assert (Hblocked : fst (dbListener None stream store_Init) = Blocked)
    by (vm_compute; reflexivity).
  split; [exact Hblocked|]. split.
  - intros later.
    destruct (dbListener None stream store_Init) as [l s] eqn:Hrun.
    simpl in Hblocked. subst l.
    apply supervisor_blocked, Hrun.
  - split; vm_compute; reflexivity.
Qed.


Lemma DeleteByKey_tombstone_witness :
  GetByKey (H0 := names_db) key_fn1
    (snd (DeleteByKey (H0 := names_db) None key_fn1 store_fn1))
  = (FunctionConfig_zero, Some (Errorf "NotFound"))
  /\ log_statuses
       (producer (snd (DeleteByKey (H0 := names_db) None key_fn1 store_fn1)))
     = [(key_fn1, 0%Z); (key_fn1, 3%Z)].
Proof.
  assert (Hcached : topics store_fn1 !! key_fn1 = Some fn1_cached).
  { vm_compute. reflexivity. }
  assert (Htomb : copy_with_status Deleted fn1_cached fn1_tombstone).
  { unfold copy_with_status. simpl. repeat split. }
  destruct (DeleteByKey_tombstone (H := ascii_library) (H0 := names_db)
              None key_fn1 store_fn1
              (reachable_Create _ _ _ _ (reachable_Init None None)))
    as (_ & Hdel & _).
  destruct (Hdel fn1_cached Hcached) as (_ & Hsent).
  destruct (Hsent fn1_tombstone Htomb) as (Hok & _).
  destruct (Hok fn1_tombstone eq_refl eq_refl) as (_ & Hlog & _ & Hget & _).
  split; [exact Hget|].
  rewrite Hlog. vm_compute. reflexivity.
Defined.

Lemma foldRecord_idempotent_witness :
  foldRecord fn1_deleted_record (topics store_fn1)
  = delete key_fn1 (topics store_fn1).
Proof.
  apply (proj1 (proj2
    (foldRecord_idempotent fn1_deleted_record (topics store_fn1)))).
  reflexivity.
Defined.

(* ===================================================================== *)
(** * Further properties: validation                                      *)
(* ===================================================================== *)

Section validation_further.

Context `{GoLibrary}.

(** Where the loop fails, it has accepted the webhooks before and the body
    fails on the next one. *)
Lemma loop_error_at (whs : list WebhookConfig) :
  forall (exclusiveSubs : gmap string bool) (err : error),
  ValidateWebhookConfig_loop exclusiveSubs whs = Some err ->
  exists pre wh post,
    whs = (pre ++ wh :: post)%list
    /\ ValidateWebhookConfig_loop exclusiveSubs pre = None
    /\ fst (ValidateWebhookConfig_body
              (exclusiveSubs_after exclusiveSubs pre) wh) = Some err.
Proof.
  induction whs as [|wh whs IH]; intros subs err Hloop; [discriminate|].
  simpl in Hloop.
  destruct (ValidateWebhookConfig_body subs wh) as [[e|] subs'] eqn:Hbody.
  - injection Hloop as ->. exists [], wh, whs.
    simpl. rewrite Hbody. auto.
  - destruct (IH _ _ Hloop) as (pre & w & post & -> & Hpre & Hw).
    exists (wh :: pre), w, post. simpl. rewrite Hbody. auto.
Qed.

Lemma collision_cons (x : WebhookConfig) (l : list WebhookConfig) :
  collision (x :: l)
  <-> collision l
      \/ (resolves_exclusive x
          /\ exists w, In w l /\ resolves_exclusive w
                       /\ Subscription w = Subscription x).
Proof.
  unfold collision, seen_exclusive. split.
  - intros (pre & wh & post & Heq & Hres & w' & Hin & Hres' & Hname).
    destruct pre as [|p pre]; [destruct Hin|].
    simpl in Heq. injection Heq as <- ->.
    destruct Hin as [<-|Hin].
    + right. split; [exact Hres'|]. exists wh.
      split; [apply in_or_app; right; left; reflexivity|]. auto.
    + left. exists pre, wh, post. split; [reflexivity|].
      split; [exact Hres|]. exists w'. auto.
  - intros [(pre & wh & post & -> & Hres & w' & Hin & Hres' & Hname)
           |(Hres & w & Hin & Hres' & Hname)].
    + exists (x :: pre), wh, post. split; [reflexivity|].
      split; [exact Hres|]. exists w'. simpl. auto.
    + apply in_split in Hin as (l1 & l2 & ->).
      exists (x :: l1), w, l2. split; [reflexivity|].
      split; [exact Hres'|]. exists x. simpl. auto.
Qed.

Lemma collision_Permutation (l l' : list WebhookConfig) :
  l ≡ₚ l' -> collision l -> collision l'.
Proof.
  induction 1 as [|x l l' Hperm IH|x y l|l1 l2 l3 _ IH1 _ IH2].
  - auto.
  - rewrite !collision_cons. intros [Hc|(Hres & w & Hin & Hw)]; [auto|].
    right. split; [exact Hres|]. exists w.
    split; [eapply Permutation_in; eassumption|exact Hw].
  - rewrite !collision_cons. simpl.
    intros [[Hc|(Hx & w & Hin & Hw & Hn)]|(Hy & w & [<-|Hin] & Hw & Hn)].
    + auto.
    + right. split; [exact Hx|]. exists w. auto.
    + right. split; [exact Hw|]. exists y. auto.
    + left. right. split; [exact Hy|]. exists w. auto.
  - auto.
Qed.

Lemma list_eq_app_last (pre post whs : list WebhookConfig)
    (w wh : WebhookConfig) :
  (whs ++ [wh] = pre ++ w :: post)%list ->
  (pre = whs /\ w = wh /\ post = [])
  \/ (exists post', whs = (pre ++ w :: post')%list /\ post = (post' ++ [wh])%list).
Proof.
  induction post as [|x post' _] using rev_ind; intros Heq.
  - left. apply app_inj_tail in Heq as [-> ->]. auto.
  - right. exists post'.
    change (whs ++ [wh] = pre ++ (w :: post') ++ [x])%list in Heq.
    rewrite app_assoc in Heq. apply app_inj_tail in Heq as [-> ->]. auto.
Qed.

Lemma ValidateWebhookConfig_accepts_iff_aux (whs : list WebhookConfig) :
  ValidateWebhookConfig whs = None
  <-> Forall well_formed whs /\ ~ collision whs.
Proof.
  split.
  - intros Hok. split.
    + eapply loop_accepts_well_formed, Hok.
    + apply accepted_no_collision, Hok.
  - intros [Hwf Hno].
    destruct (ValidateWebhookConfig whs) as [err|] eqn:Hres; [|reflexivity].
    exfalso. unfold ValidateWebhookConfig in Hres.
    apply loop_error_at in Hres as (pre & wh & post & -> & Hpre & Hbody).
    apply Forall_app in Hwf as [_ Hwf].
    apply Forall_cons in Hwf as [(Hurl & Hname & Hty & Hpos) _].
    pose proof (ValidateWebhookConfig_body_outcome
                  (exclusiveSubs_after ∅ pre) wh) as Hout.
    destruct (ValidateWebhookConfig_body (exclusiveSubs_after ∅ pre) wh)
      as [e subs'].
    simpl in Hbody. subst e.
    inversion Hout; subst; try congruence; try contradiction.
    apply Hno. exists pre, wh, post. split; [reflexivity|].
    split; [assumption|].
    match goal with
    | Hs : seen _ _ = true |- _ =>
        apply (exclusiveSubs_after_seen _ _ _ Hpre) in Hs as [Hs|Hs];
        [rewrite seen_empty in Hs; discriminate|exact Hs]
    end.
Qed.

(** X1. [ValidateWebhookConfig] accepts a list exactly when each of its
    webhooks is well formed (URL with scheme and host, subscription name
    not blank, known subscription type, known initial position) and no two
    of its exclusive webhooks have the same subscription name. *)
Theorem ValidateWebhookConfig_accepts_iff (whs : list WebhookConfig) :
  ValidateWebhookConfig whs = None
  <-> Forall well_formed whs /\ ~ collision whs.
Proof. apply ValidateWebhookConfig_accepts_iff_aux. Qed.

Lemma sublist_In (l l' : list WebhookConfig) (w : WebhookConfig) :
  sublist l' l -> In w l' -> In w l.
Proof.
  induction 1 as [|x l1 l2 Hsub IH|x l1 l2 Hsub IH]; simpl; intuition.
Qed.

Lemma collision_sublist (l l' : list WebhookConfig) :
  sublist l' l -> collision l' -> collision l.
Proof.
  induction 1 as [|x l1 l2 Hsub IH|x l1 l2 Hsub IH].
  - auto.
  - rewrite !collision_cons. intros [Hc|(Hres & w & Hin & Hw)]; [auto|].
    right. split; [exact Hres|]. exists w. split; [|exact Hw].
    eapply sublist_In; eassumption.
  - rewrite collision_cons. auto.
Qed.

(** X2. Whether a list of webhooks is accepted does not depend on the order
    of the webhooks, and a list made of some of the webhooks of an accepted
    list is accepted. *)
Theorem ValidateWebhookConfig_order_and_removal (whs whs' : list WebhookConfig) :
  (whs ≡ₚ whs' ->
   (ValidateWebhookConfig whs = None <-> ValidateWebhookConfig whs' = None))
  /\ (sublist whs' whs ->
      ValidateWebhookConfig whs = None -> ValidateWebhookConfig whs' = None).
Proof.
  split.
  - intros Hperm. rewrite !ValidateWebhookConfig_accepts_iff_aux.
    split; intros [Hwf Hno]; split.
    + rewrite <- Hperm. exact Hwf.
    + intros Hc. apply Hno. eapply collision_Permutation; [|exact Hc].
      symmetry. exact Hperm.
    + rewrite Hperm. exact Hwf.
    + intros Hc. apply Hno. eapply collision_Permutation; eassumption.
  - intros Hsub. rewrite !ValidateWebhookConfig_accepts_iff_aux.
    intros [Hwf Hno]. split.
    + rewrite Forall_forall in *. intros w Hw.
      apply Hwf, list_elem_of_In. eapply sublist_In; [exact Hsub|].
      apply list_elem_of_In, Hw.
    + intros Hc. apply Hno. eapply collision_sublist; eassumption.
Qed.

(** X3. An error of [ValidateWebhookConfig] is one of five, and each is about
    a webhook of the list that breaks the rule the error names: a URL that
    does not parse with scheme and host, a blank subscription name, an
    unknown subscription type, an exclusive subscription name used by an
    earlier exclusive webhook, an unknown initial position. *)
Theorem ValidateWebhookConfig_error_about_a_webhook
    (whs : list WebhookConfig) (err : error) :
  ValidateWebhookConfig whs = Some err ->
  exists pre wh post,
    whs = (pre ++ wh :: post)%list
    /\ ((err = InvalidURL (URL wh) /\ IsURL (URL wh) = false)
        \/ (err = MissingSubscription
            /\ strings_TrimSpace (Subscription wh) = "")
        \/ (err = UnsupportedSubscriptionType (SubscriptionType wh)
            /\ ~ known_type (SubscriptionType wh))
        \/ (err = DuplicateExclusiveSubscription (Subscription wh)
            /\ resolves_exclusive wh
            /\ seen_exclusive pre (Subscription wh))
        \/ (err = InvalidInitialPosition (InitialPosition wh)
            /\ ~ known_position (InitialPosition wh))).
Proof.
  unfold ValidateWebhookConfig. intros Hres.
  apply loop_error_at in Hres as (pre & wh & post & -> & Hpre & Hbody).
  exists pre, wh, post. split; [reflexivity|].
  pose proof (ValidateWebhookConfig_body_outcome
                (exclusiveSubs_after ∅ pre) wh) as Hout.
  remember (ValidateWebhookConfig_body (exclusiveSubs_after ∅ pre) wh) as r.
  clear Heqr.
  destruct Hout; simpl in Hbody; try discriminate;
    apply (inj Some) in Hbody; subst err; auto 7.
  right. right. right. left. split; [reflexivity|]. split; [assumption|].
  match goal with
  | Hs : seen _ _ = true |- _ =>
      apply (exclusiveSubs_after_seen _ _ _ Hpre) in Hs as [Hs|Hs];
      [rewrite seen_empty in Hs; discriminate|exact Hs]
  end.
Qed.

(** X4. A webhook added at the end of a list is accepted with it exactly
    when the list is accepted, the webhook is well formed and, if it is
    exclusive, no exclusive webhook of the list has its subscription name. *)
Theorem ValidateWebhookConfig_append (whs : list WebhookConfig)
    (wh : WebhookConfig) :
  ValidateWebhookConfig (whs ++ [wh]) = None
  <-> ValidateWebhookConfig whs = None
      /\ well_formed wh
      /\ ~ (resolves_exclusive wh /\ seen_exclusive whs (Subscription wh)).
Proof.
  rewrite !ValidateWebhookConfig_accepts_iff_aux. split.
  - intros [Hwf Hno]. apply Forall_app in Hwf as [Hwf Hwh].
    apply Forall_cons in Hwh as [Hwh _].
    split; [split; [exact Hwf|]|split; [exact Hwh|]].
    + intros Hc. apply Hno. eapply collision_sublist; [|exact Hc].
      apply sublist_inserts_r. reflexivity.
    + intros [Hres Hseen]. apply Hno. exists whs, wh, []. auto.
  - intros ([Hwf Hno] & Hwh & Hnew). split.
    + apply Forall_app. split; [exact Hwf|]. constructor; [exact Hwh|constructor].
    + intros (pre & w & post & Heq & Hres & Hseen).
      destruct (list_eq_app_last pre post whs w wh Heq)
        as [(-> & -> & ->)|(post' & -> & ->)].
      * apply Hnew. auto.
      * apply Hno. exists pre, w, post'. auto.
Qed.

End validation_further.

Section names_further.

Context `{GoLibrary}.

Lemma same_letters_ToLower (a b : string) :
  same_letters a b -> strings_ToLower a = strings_ToLower b.
Proof.
  intros (Ha & Hb & Hab).
  rewrite (strings_ToLower_ascii a Ha), (strings_ToLower_ascii b Hb).
  exact Hab.
Qed.

(** X5. The names of subscription types, initial positions and statuses
    are read whatever the case of their ASCII letters: two ASCII strings
    with the same letters give the same subscription type, the same initial
    position and the same status, and fail together. *)
Theorem names_whatever_the_case (a b : string) :
  same_letters a b ->
  fst (GetSubscriptionType a) = fst (GetSubscriptionType b)
  /\ (snd (GetSubscriptionType a) = None <-> snd (GetSubscriptionType b) = None)
  /\ fst (GetInitialPosition a) = fst (GetInitialPosition b)
  /\ (snd (GetInitialPosition a) = None <-> snd (GetInitialPosition b) = None)
  /\ StringToStatus a = StringToStatus b.
Proof.
  intros Hsame. apply same_letters_ToLower in Hsame.
  unfold GetSubscriptionType, GetInitialPosition, StringToStatus.
  rewrite Hsame.
  repeat split;
    repeat match goal with
    | |- context [String.eqb ?x ?y] => destruct (String.eqb x y)
    end; simpl; auto; discriminate.
Qed.

(** X6. [GetSubscriptionType] and [GetInitialPosition] return either one of
    the declared values without error, or -1 with the error that quotes
    their argument; [StringToStatus] returns one of the four statuses, and
    Deactivated for every string that is not one of the three other names. *)
Theorem names_values (s : string) :
  ((snd (GetSubscriptionType s) = None
    /\ In (fst (GetSubscriptionType s))
          [pulsar_Exclusive; pulsar_Shared; pulsar_KeyShared; pulsar_Failover])
   \/ GetSubscriptionType s = ((-1)%Z, Some (UnsupportedSubscriptionType s)))
  /\ ((snd (GetInitialPosition s) = None
       /\ In (fst (GetInitialPosition s))
             [pulsar_SubscriptionPositionLatest;
              pulsar_SubscriptionPositionEarliest])
      \/ GetInitialPosition s = ((-1)%Z, Some (InvalidInitialPosition s)))
  /\ In (StringToStatus s) [Deactivated; Activated; Suspended; Deleted]
  /\ (strings_ToLower s <> "activated" ->
      strings_ToLower s <> "suspended" ->
      strings_ToLower s <> "deleted" ->
      StringToStatus s = Deactivated).
Proof.
  split; [|split; [|split]].
  - destruct (known_type_dec s) as [Hk|Hk].
    + left. apply GetSubscriptionType_known, Hk.
    + right. apply GetSubscriptionType_unknown, Hk.
  - destruct (known_position_dec s) as [Hk|Hk].
    + left. split; [apply GetInitialPosition_known, Hk|].
      unfold known_position in Hk. unfold GetInitialPosition.
      destruct Hk as [Hk | [Hk | Hk]]; rewrite Hk; simpl; auto.
    + right. apply GetInitialPosition_unknown, Hk.
  - unfold StringToStatus.
    repeat match goal with
    | |- context [String.eqb ?x ?y] => destruct (String.eqb x y)
    end; simpl; auto.
  - intros H1 H2 H3. unfold StringToStatus.
    apply eqb_neq in H1, H2, H3. rewrite H1, H2, H3. reflexivity.
Qed.

Lemma skip_space_stops (c : ascii) (l : list ascii) :
  ascii_not_space c = true -> skip_space (c :: l) = (c :: l, false).
Proof.
  unfold ascii_not_space. intros Hc.
  apply andb_true_iff in Hc as [Hc1 Hc2].
  apply negb_true_iff in Hc1, Hc2. simpl. rewrite Hc1, Hc2. reflexivity.
Qed.

(** [strings.TrimSpace] keeps a string that begins and ends with ASCII bytes
    that are not spaces. *)
Lemma strings_TrimSpace_keeps (s : string) (c d : ascii) :
  first_byte s = Some c -> last_byte s = Some d ->
  ascii_not_space c = true -> ascii_not_space d = true ->
  strings_TrimSpace s = s.
Proof.
  unfold first_byte, last_byte, strings_TrimSpace. intros Hc Hd Hcs Hds.
  destruct (list_ascii_of_string s) as [|c' l] eqn:Hl; [discriminate|].
  simpl in Hc. injection Hc as ->.
  rewrite (skip_space_stops c l Hcs).
  destruct (rev (c :: l)) as [|d' r] eqn:Hr; [discriminate|].
  simpl in Hd. injection Hd as ->.
  rewrite (skip_space_stops d r Hds).
  rewrite <- Hr, rev_involutive, <- Hl.
  apply string_of_list_ascii_of_string.
Qed.

Lemma pretty_N_go_suffix (x : N) :
  forall s : string, exists p : string, pretty_N_go x s = p ++ s.
Proof.
  induction (N.lt_wf_0 x) as [x _ IH]. intros s.
  destruct (decide (x = 0)%N) as [->|Hx].
  - exists "". rewrite pretty_N_go_0. reflexivity.
  - rewrite pretty_N_go_step by lia.
    destruct (IH (x `div` 10)%N) with (s := String (pretty_N_char (x `mod` 10)) s)
      as [p Hp].
    { apply N.div_lt; lia. }
    exists (p ++ String (pretty_N_char (x `mod` 10)) "").
    rewrite Hp, string_app_assoc. reflexivity.
Qed.

Lemma pretty_N_char_not_space (x : N) : ascii_not_space (pretty_N_char x) = true.
Proof.
  unfold pretty_N_char.
  repeat match goal with |- context [match ?y with _ => _ end] => destruct y end;
    reflexivity.
Qed.

(** The decimal writing of an integer ends with a digit. *)
Lemma pretty_Z_last (n : Z) :
  exists (p : string) (x : N),
    pretty n = p ++ String (pretty_N_char x) "".
Proof.
  assert (HN : forall y : N, exists (p : string) (x : N),
             pretty y = p ++ String (pretty_N_char x) "").
  { intros y. unfold pretty, pretty_N.
    destruct (decide (y = 0)%N) as [->|Hy].
    - exists "", 0%N. reflexivity.
    - rewrite pretty_N_go_step by lia.
      destruct (pretty_N_go_suffix (y `div` 10)%N
                  (String (pretty_N_char (y `mod` 10)) "")) as [p Hp].
      exists p, (y `mod` 10)%N. exact Hp. }
  destruct n as [|q|q].
  - exists "", 0%N. reflexivity.
  - apply (HN (Npos q)).
  - destruct (HN (Npos q)) as (p & x & Hp).
    exists ("-" ++ p), x.
    change (pretty (Z.neg q)) with ("-" ++ pretty (N.pos q)).
    rewrite Hp, string_app_assoc. reflexivity.
Qed.

Lemma last_byte_app (p : string) (d : ascii) :
  last_byte (p ++ String d "") = Some d.
Proof.
  unfold last_byte. rewrite list_ascii_of_string_app, rev_app_distr.
  reflexivity.
Qed.

Lemma NewWebhookConfig_Subscription_keeps (topicKey : string) (nanos : Z)
    (now1 now2 : time_Time) (url : string) :
  let sub := Subscription (NewWebhookConfig topicKey nanos now1 now2 url) in
  strings_TrimSpace sub = sub /\ sub <> "".
Proof.
  simpl. destruct (pretty_Z_last nanos) as (p & x & Hp).
  split; [|discriminate].
  apply (strings_TrimSpace_keeps _ "N"%char (pretty_N_char x)).
  - reflexivity.
  - rewrite Hp. unfold NonResumable. rewrite <- !string_app_assoc.
    apply last_byte_app.
  - reflexivity.
  - apply pretty_N_char_not_space.
Qed.

(** X7. A webhook made by [NewWebhookConfig] is well formed as soon as its
    URL has a scheme and a host: alone it is accepted, and with a URL that
    has not it is refused for its URL.  Two webhooks made with the same
    topic key at different nanoseconds have different subscription names,
    and are accepted together. *)
Theorem NewWebhookConfig_accepted (topicKey : string) (nanos nanos' : Z)
    (now1 now2 now3 now4 : time_Time) (url url' : string) :
  let wh := NewWebhookConfig topicKey nanos now1 now2 url in
  let wh' := NewWebhookConfig topicKey nanos' now3 now4 url' in
  (IsURL url = true -> ValidateWebhookConfig [wh] = None)
  /\ (IsURL url = false ->
      ValidateWebhookConfig [wh] = Some (InvalidURL url))
  /\ (nanos <> nanos' -> Subscription wh <> Subscription wh')
  /\ (IsURL url = true -> IsURL url' = true -> nanos <> nanos' ->
      ValidateWebhookConfig [wh; wh'] = None).
Proof.
  intros wh wh'.
  assert (Hwf : forall k n t1 t2 u,
            IsURL u = true -> well_formed (NewWebhookConfig k n t1 t2 u)).
  { intros k n t1 t2 u Hu. split; [exact Hu|].
    destruct (NewWebhookConfig_Subscription_keeps k n t1 t2 u) as [Hkeep Hne].
    split; [simpl in *; congruence|].
    split; [left; reflexivity|left; reflexivity]. }
  assert (Hnames : nanos <> nanos' -> Subscription wh <> Subscription wh').
  { intros Hn Heq. simpl in Heq. apply Hn.
    apply String.app_inj, String.app_inj in Heq.
    apply (inj pretty) in Heq. exact Heq. }
  split; [|split; [|split; [exact Hnames|]]].
  - intros Hu. apply ValidateWebhookConfig_accepts_iff_aux. split.
    + constructor; [apply Hwf, Hu|constructor].
    + rewrite collision_cons. intros [Hc|(_ & w & Hin & _)]; [|destruct Hin].
      destruct Hc as (pre & w & post & Heq & _). destruct pre; discriminate.
  - intros Hu. unfold ValidateWebhookConfig. simpl.
    unfold ValidateWebhookConfig_body. simpl. rewrite Hu. reflexivity.
  - intros Hu Hu' Hn. apply ValidateWebhookConfig_accepts_iff_aux. split.
    + constructor; [apply Hwf, Hu|].
      constructor; [apply Hwf, Hu'|constructor].
    + rewrite !collision_cons.
      intros [[Hc|(_ & w & Hin & _)]|(_ & w & Hin & _ & Heq)].
      * destruct Hc as (pre & w & post & Heq & _). destruct pre; discriminate.
      * destruct Hin.
      * destruct Hin as [<-|Hin]; [|destruct Hin].
        apply (Hnames Hn). symmetry. exact Heq.
Qed.

End names_further.

Section route_properties.

Context `{PackageRoute}.

(** X8. In every mode the effective routes begin with the Prometheus routes
    and hold nothing but routes of the three tables.  The receiver routes
    are served in the three named modes, the REST routes in every mode but
    the receiver mode, and a mode that is none of the three names serves the
    REST routes alone after the Prometheus routes. *)
Theorem GetEffectiveRoutes_by_mode (mode : string) :
  (exists rest,
     GetEffectiveRoutes mode = (PrometheusRoute ++ rest)%list
     /\ (rest = (ReceiverRoutes ++ RestRoutes)%list
         \/ rest = ReceiverRoutes \/ rest = RestRoutes))
  /\ (forall r, In r (GetEffectiveRoutes mode) ->
        In r PrometheusRoute \/ In r ReceiverRoutes \/ In r RestRoutes)
  /\ (mode = util_Hybrid \/ mode = util_Receiver \/ mode = util_HTTPOnly ->
      incl ReceiverRoutes (GetEffectiveRoutes mode))
  /\ (mode = util_Hybrid \/ mode <> util_Receiver ->
      incl RestRoutes (GetEffectiveRoutes mode))
  /\ (mode <> util_Hybrid -> mode <> util_Receiver -> mode <> util_HTTPOnly ->
      GetEffectiveRoutes mode = (PrometheusRoute ++ RestRoutes)%list)
  /\ (mode = util_Receiver -> mode <> util_Hybrid ->
      GetEffectiveRoutes mode = (PrometheusRoute ++ ReceiverRoutes)%list).
Proof.
  unfold GetEffectiveRoutes, getRoutes.
  destruct (String.eqb_spec mode util_Hybrid) as [Hh|Hh];
    destruct (String.eqb_spec mode util_Receiver) as [Hr|Hr];
    destruct (String.eqb_spec mode util_HTTPOnly) as [Ho|Ho];
    (split; [eexists; split; [reflexivity|auto]|]);
    (split; [intros r Hin; rewrite ?in_app_iff in Hin; tauto|]);
    repeat split; try tauto; try congruence;
    intros; intros r Hin; rewrite ?in_app_iff; tauto.
Qed.

End route_properties.

(* ===================================================================== *)
(** * Further properties: the store                                       *)
(* ===================================================================== *)

Section db_further.

Context `{GoLibrary} `{PackageDb}.

(** X9. A write that returns an error leaves the store as it was, cache,
    lock and log: this holds of [Create], [Update], [DeleteByKey] and
    [Delete], whatever the error. *)
Theorem failed_write_keeps_store (now : time_Time) (send : option error)
    (functionCfg : FunctionConfig) (key tenant functionName : string)
    (s : PulsarHandler) :
  (snd (fst (Create now send functionCfg s)) <> None ->
   snd (Create now send functionCfg s) = s)
  /\ (snd (fst (Update now send functionCfg s)) <> None ->
      snd (Update now send functionCfg s) = s)
  /\ (snd (fst (DeleteByKey send key s)) <> None ->
      snd (DeleteByKey send key s) = s)
  /\ (snd (fst (Delete send tenant functionName s)) <> None ->
      snd (Delete send tenant functionName s) = s).
Proof.
  assert (Hupd : forall cfg,
            snd (fst (updateCacheAndPulsar send cfg s)) <> None ->
            snd (updateCacheAndPulsar send cfg s) = s).
  { intros cfg. unfold updateCacheAndPulsar.
    destruct (json_Marshal cfg); [|reflexivity].
    destruct send; [reflexivity|]. simpl. congruence. }
  assert (Hcreate : forall cfg,
            snd (fst (Create now send cfg s)) <> None ->
            snd (Create now send cfg s) = s).
  { intros cfg. unfold Create.
    destruct (getKey cfg) as [k [e|]]; [reflexivity|].
    destruct (topics s !! k); [reflexivity|]. apply Hupd. }
  assert (Hdel : forall k,
            snd (fst (DeleteByKey send k s)) <> None ->
            snd (DeleteByKey send k s) = s).
  { intros k. unfold DeleteByKey.
    destruct (topics s !! k); [|reflexivity].
    destruct (json_Marshal _); [|reflexivity].
    destruct send; [reflexivity|]. simpl. congruence. }
  split; [apply Hcreate|]. split; [|split; [apply Hdel|apply Hdel]].
  unfold Update. destruct (getKey functionCfg) as [k [e|]]; [reflexivity|].
  destruct (topics s !! k); [apply Hupd|apply Hcreate].
Qed.

Lemma updateCacheAndPulsar_success (send : option error)
    (cfg : FunctionConfig) (s : PulsarHandler) :
  snd (fst (updateCacheAndPulsar send cfg s)) = None ->
  exists data,
    json_Marshal cfg = inl data
    /\ updateCacheAndPulsar send cfg s
       = ((fc_ID cfg, None),
          {| topics := <[fc_ID cfg := cfg]> (topics s);
             topicsLock := topicsLock s;
             producer := producer s
                         ++ [{| msg_Payload := data; msg_Key := fc_ID cfg |}] |}).
Proof.
  unfold updateCacheAndPulsar.
  destruct (json_Marshal cfg) as [data|e]; [|discriminate].
  destruct send; [discriminate|]. intros _. exists data. auto.
Qed.

Lemma same_content_created (now : time_Time) (key : string)
    (cfg : FunctionConfig) :
  same_content (set_UpdatedAt now (set_CreatedAt now (set_ID key cfg))) cfg.
Proof. destruct cfg. reflexivity. Qed.

Lemma same_content_refl (cfg : FunctionConfig) : same_content cfg cfg.
Proof. destruct cfg. reflexivity. Qed.

Lemma successful_write_caches_what_it_logs_aux (now : time_Time)
    (send : option error) (functionCfg : FunctionConfig) (s : PulsarHandler) :
  let written r :=
    exists doc data,
      same_content doc functionCfg
      /\ fst (fst r) = fc_ID doc
      /\ json_Marshal doc = inl data
      /\ topics (snd r) = <[fc_ID doc := doc]> (topics s)
      /\ producer (snd r)
         = (producer s ++ [{| msg_Payload := data; msg_Key := fc_ID doc |}])%list
      /\ topicsLock (snd r) = topicsLock s in
  (snd (fst (Create now send functionCfg s)) = None ->
   written (Create now send functionCfg s))
  /\ (snd (fst (Update now send functionCfg s)) = None ->
      written (Update now send functionCfg s)).
Proof.
  intros written.
  assert (Hcreate : snd (fst (Create now send functionCfg s)) = None ->
                    written (Create now send functionCfg s)).
  { unfold Create.
    destruct (getKey functionCfg) as [k [e|]]; [discriminate|].
    destruct (topics s !! k); [discriminate|].
    intros Hok. apply updateCacheAndPulsar_success in Hok as (data & Hdata & ->).
    eexists _, data. split; [apply same_content_created|].
    subst written. cbv beta. repeat split; try reflexivity. exact Hdata. }
  split; [exact Hcreate|].
  unfold Update. destruct (getKey functionCfg) as [k [e|]]; [discriminate|].
  destruct (topics s !! k); [|exact Hcreate].
  intros Hok. apply updateCacheAndPulsar_success in Hok as (data & Hdata & ->).
  exists functionCfg, data. split; [apply same_content_refl|].
  repeat split; try reflexivity. exact Hdata.
Qed.

(** X10. When [Create] or [Update] succeeds, the key it returns is the ID of
    a document that is the one passed in but for its ID, CreatedAt and
    UpdatedAt; this document is cached under that key, its encoding is the
    one message added to the log, keyed by the same key, and the lock is as
    it was. *)
Theorem successful_write_caches_what_it_logs (now : time_Time)
    (send : option error) (functionCfg : FunctionConfig) (s : PulsarHandler) :
  let written r :=
    exists doc data,
      same_content doc functionCfg
      /\ fst (fst r) = fc_ID doc
      /\ json_Marshal doc = inl data
      /\ topics (snd r) = <[fc_ID doc := doc]> (topics s)
      /\ producer (snd r)
         = (producer s ++ [{| msg_Payload := data; msg_Key := fc_ID doc |}])%list
      /\ topicsLock (snd r) = topicsLock s in
  (snd (fst (Create now send functionCfg s)) = None ->
   written (Create now send functionCfg s))
  /\ (snd (fst (Update now send functionCfg s)) = None ->
      written (Update now send functionCfg s)).
Proof. apply successful_write_caches_what_it_logs_aux. Qed.

Lemma dbListener_loop_producer (stream : list ReaderNext) :
  forall (deferred : nat) (s : PulsarHandler),
  producer (snd (dbListener_loop stream deferred s)) = producer s.
Proof.
  assert (Hrun : forall n (s s' : PulsarHandler),
            run_deferred n s = Some s' -> producer s' = producer s).
  { induction n as [|n IH]; intros s s'; simpl.
    - intros [= <-]. reflexivity.
    - destruct (topicsLock s); [|discriminate].
      intros Hr. apply IH in Hr. exact Hr. }
  induction stream as [|[payload|err] rest IH]; intros deferred s; simpl.
  - reflexivity.
  - destruct (json_Unmarshal payload) as [doc|_]; [|apply IH].
    destruct (topicsLock s); [reflexivity|]. rewrite IH. reflexivity.
  - destruct (run_deferred deferred s) as [s'|] eqn:Hr; [|reflexivity].
    simpl. apply (Hrun _ _ _ Hr).
Qed.

Lemma log_keyed_by_ID_snoc (log : list ProducerMessage) (doc : FunctionConfig)
    (data : Payload) :
  log_keyed_by_ID log ->
  json_Marshal doc = inl data ->
  log_keyed_by_ID (log ++ [{| msg_Payload := data; msg_Key := fc_ID doc |}]).
Proof.
  intros Hlog Hdata msg Hin. apply in_app_or in Hin as [Hin|[<-|[]]].
  - apply Hlog, Hin.
  - exists doc. auto.
Qed.

Lemma updateCacheAndPulsar_log_keyed (send : option error)
    (cfg : FunctionConfig) (s : PulsarHandler) :
  log_keyed_by_ID (producer s) ->
  log_keyed_by_ID (producer (snd (updateCacheAndPulsar send cfg s))).
Proof.
  intros Hs. unfold updateCacheAndPulsar.
  destruct (json_Marshal cfg) as [data|e] eqn:Hdata; [|exact Hs].
  destruct send; [exact Hs|]. simpl.
  apply log_keyed_by_ID_snoc; assumption.
Qed.

Lemma Create_log_keyed (now : time_Time) (send : option error)
    (cfg : FunctionConfig) (s : PulsarHandler) :
  log_keyed_by_ID (producer s) ->
  log_keyed_by_ID (producer (snd (Create now send cfg s))).
Proof.
  intros Hs. unfold Create.
  destruct (getKey cfg) as [k [e|]]; [exact Hs|].
  destruct (topics s !! k); [exact Hs|].
  apply updateCacheAndPulsar_log_keyed, Hs.
Qed.

Lemma DeleteByKey_log_keyed (send : option error) (key : string)
    (s : PulsarHandler) :
  log_keyed_by_ID (producer s) ->
  log_keyed_by_ID (producer (snd (DeleteByKey send key s))).
Proof.
  intros Hs. unfold DeleteByKey.
  destruct (topics s !! key) as [v|]; [|exact Hs].
  destruct (json_Marshal (set_FunctionStatus Deleted v)) as [data|e] eqn:Hdata;
    [|exact Hs].
  destruct send; [exact Hs|]. simpl.
  apply (log_keyed_by_ID_snoc _ (set_FunctionStatus Deleted v)); assumption.
Qed.

(** X11. In every state of the store, each message of its log is keyed by
    the ID of the document it encodes, so that the key by which the log is
    compacted is the key under which the listener folds the record. *)
Theorem reachable_log_keyed_by_ID (s : PulsarHandler) :
  reachable s -> log_keyed_by_ID (producer s).
Proof.
  induction 1 as [newClient createProducer| | | | |].
  - destruct newClient, createProducer; intros msg [].
  - apply Create_log_keyed; assumption.
  - unfold Update. destruct (getKey functionCfg) as [k [e|]]; [assumption|].
    destruct (topics s !! k).
    + apply updateCacheAndPulsar_log_keyed; assumption.
    + apply Create_log_keyed; assumption.
  - apply DeleteByKey_log_keyed; assumption.
  - unfold Delete. simpl. apply DeleteByKey_log_keyed; assumption.
  - rewrite dbListener_loop_producer. assumption.
Qed.

(** X12. In every state of the store, [GetByKey] returns without error
    exactly for the cached keys, the document it returns then has the key
    as its ID, and for any other key it returns the zero document with
    [DocNotFound]; [GetByTopic] is [GetByKey] of the key of its two
    names. *)
Theorem GetByKey_own_ID (key : string) (s : PulsarHandler) :
  reachable s ->
  (snd (GetByKey key s) = None <-> is_Some (topics s !! key))
  /\ (snd (GetByKey key s) = None -> fc_ID (fst (GetByKey key s)) = key)
  /\ (snd (GetByKey key s) <> None ->
      GetByKey key s = (FunctionConfig_zero, Some (Errorf DocNotFound)))
  /\ (forall tenant functionName,
        GetByTopic tenant functionName s
        = GetByKey (GenKey tenant functionName) s).
Proof.
  intros Hreach. pose proof (reachable_keyed_by_ID s Hreach) as Hkeyed.
  unfold GetByKey. destruct (topics s !! key) as [v|] eqn:Hv; simpl.
  - split; [split; eauto|]. split; [intros _; apply (Hkeyed _ _ Hv)|].
    split; [congruence|reflexivity].
  - split; [split; [discriminate|intros [v Hv']; discriminate]|].
    split; [discriminate|]. split; reflexivity.
Qed.

Lemma Create_success (now : time_Time) (cfg : FunctionConfig) (key : string)
    (data : Payload) (s : PulsarHandler) :
  getKey cfg = (key, None) ->
  topics s !! key = None ->
  json_Marshal (set_UpdatedAt now (set_CreatedAt now (set_ID key cfg)))
    = inl data ->
  Create now None cfg s
  = ((key, None),
     {| topics := <[key := set_UpdatedAt now (set_CreatedAt now (set_ID key cfg))]>
                    (topics s);
        topicsLock := topicsLock s;
        producer := producer s
                    ++ [{| msg_Payload := data; msg_Key := key |}] |}).
Proof.
  intros Hkey Hnone Hdata. unfold Create, updateCacheAndPulsar.
  rewrite Hkey, Hnone. simpl. rewrite Hdata. reflexivity.
Qed.

(** X13. After a successful [Create], [GetByKey] of the returned key gives
    the document passed in, with the key as its ID and the time of the call
    as CreatedAt and UpdatedAt and nothing else changed; the other keys read
    as before, the cache has one document more, and a [Create] of any
    document with the same key now fails with [DocAlreadyExisted] and
    changes nothing. *)
Theorem Create_then_GetByKey (now : time_Time) (functionCfg : FunctionConfig)
    (key : string) (data : Payload) (s : PulsarHandler) :
  getKey functionCfg = (key, None) ->
  topics s !! key = None ->
  let doc := set_UpdatedAt now (set_CreatedAt now (set_ID key functionCfg)) in
  json_Marshal doc = inl data ->
  let s' := snd (Create now None functionCfg s) in
  fst (Create now None functionCfg s) = (key, None)
  /\ GetByKey key s' = (doc, None)
  /\ same_content doc functionCfg
  /\ (forall k, k <> key -> GetByKey k s' = GetByKey k s)
  /\ size (topics s') = S (size (topics s))
  /\ (forall now' send' cfg',
        getKey cfg' = (key, None) ->
        Create now' send' cfg' s'
        = ((key, Some (Errorf DocAlreadyExisted)), s')).
Proof.
  intros Hkey Hnone doc Hdata s'. subst s'.
  rewrite (Create_success _ _ _ _ _ Hkey Hnone Hdata). simpl.
  split; [reflexivity|]. split.
  { unfold GetByKey. simpl. rewrite lookup_insert_eq. reflexivity. }
  split; [apply same_content_created|]. split.
  { intros k Hk. unfold GetByKey. simpl.
    rewrite lookup_insert_ne by congruence. reflexivity. }
  split; [apply map_size_insert_None, Hnone|].
  intros now' send' cfg' Hkey'. unfold Create. rewrite Hkey'. simpl.
  rewrite lookup_insert_eq. reflexivity.
Qed.

(** X14. [DeleteByKey] of the key that a successful [Create] has returned
    gives back the cache of before the [Create], and leaves in the log two
    more messages, both keyed by the key: the encoding of the created
    document, then the encoding of its tombstone, the document whose status
    is Deleted and whose other fields, ID included, are those of the created
    document. *)
Theorem Create_then_DeleteByKey (now : time_Time) (functionCfg : FunctionConfig)
    (key : string) (tombstone : FunctionConfig) (data data' : Payload)
    (s : PulsarHandler) :
  getKey functionCfg = (key, None) ->
  topics s !! key = None ->
  let doc := set_UpdatedAt now (set_CreatedAt now (set_ID key functionCfg)) in
  json_Marshal doc = inl data ->
  copy_with_status Deleted doc tombstone ->
  json_Marshal tombstone = inl data' ->
  let s' := snd (Create now None functionCfg s) in
  fst (DeleteByKey None key s') = (key, None)
  /\ topics (snd (DeleteByKey None key s')) = topics s
  /\ producer (snd (DeleteByKey None key s'))
     = (producer s ++ [{| msg_Payload := data; msg_Key := key |};
                       {| msg_Payload := data'; msg_Key := key |}])%list
  /\ GetByKey key s' = (doc, None)
  /\ FunctionStatus tombstone = Deleted
  /\ fc_ID tombstone = key
  /\ fc_ID doc = key
  /\ FunctionStatus doc = FunctionStatus functionCfg.
Proof.
  intros Hkey Hnone doc Hdata Htomb Hdata' s'. subst s'.
  pose proof Htomb as (Hstatus & _ & Hid & _).
  apply copy_with_status_assigned in Htomb.
  rewrite (Create_success _ _ _ _ _ Hkey Hnone Hdata).
  unfold DeleteByKey, GetByKey. simpl. rewrite lookup_insert_eq. fold doc.
  rewrite <- Htomb, Hdata'. simpl. rewrite Hid. simpl.
  split; [reflexivity|]. split; [apply delete_insert_id, Hnone|].
  split; [rewrite <- app_assoc; reflexivity|].
  split; [reflexivity|]. split; [exact Hstatus|]. repeat split.
Qed.

(** X15. In every state of the store, a successful [DeleteByKey] leaves the
    other keys as they were and the cache with one document less, and a
    second [DeleteByKey] of the same key fails with [DocNotFound] and
    changes nothing. *)
Theorem DeleteByKey_only_its_key (send send' : option error) (key : string)
    (s : PulsarHandler) :
  reachable s ->
  snd (fst (DeleteByKey send key s)) = None ->
  let s' := snd (DeleteByKey send key s) in
  (forall k, k <> key -> GetByKey k s' = GetByKey k s)
  /\ S (size (topics s')) = size (topics s)
  /\ DeleteByKey send' key s' = (("", Some (Errorf DocNotFound)), s').
Proof.
  intros Hreach. pose proof (reachable_keyed_by_ID s Hreach) as Hkeyed.
  intros Hok s'. subst s'. revert Hok. unfold DeleteByKey.
  destruct (topics s !! key) as [v|] eqn:Hv; [|discriminate].
  destruct (json_Marshal (set_FunctionStatus Deleted v)); [|discriminate].
  destruct send; [discriminate|]. simpl. intros _.
  assert (Hid : fc_ID v = key) by apply (Hkeyed _ _ Hv). rewrite Hid.
  split; [|split].
  - intros k Hk. unfold GetByKey. simpl.
    rewrite lookup_delete_ne by congruence. reflexivity.
  - rewrite map_size_delete_Some by eauto.
    assert (size (topics s) <> 0%nat).
    { apply map_size_ne_0_lookup_2 with key. eauto. }
    lia.
  - rewrite lookup_delete_eq. reflexivity.
Qed.

(** X16. After the listener has folded a record, a lookup of the ID of the
    record finds the record, or nothing if its status is Deleted, and the
    other keys are as before. *)
Theorem foldRecord_lookup (doc : FunctionConfig) (k : string)
    (m : gmap string FunctionConfig) :
  (FunctionStatus doc <> Deleted -> foldRecord doc m !! fc_ID doc = Some doc)
  /\ (FunctionStatus doc = Deleted -> foldRecord doc m !! fc_ID doc = None)
  /\ (k <> fc_ID doc -> foldRecord doc m !! k = m !! k).
Proof.
  destruct (foldRecord_cases doc m) as [[Hs ->]|[Hs ->]].
  - split; [intros _; apply lookup_insert_eq|].
    split; [contradiction|]. intros Hk. apply lookup_insert_ne. congruence.
  - split; [contradiction|].
    split; [intros _; apply lookup_delete_eq|].
    intros Hk. apply lookup_delete_ne. congruence.
Qed.

(** The listener, started with the lock free on a stream whose first record
    decodes, folds the decoded document and nothing else. *)
Lemma dbListener_folds_decoded (payload : Payload) (doc : FunctionConfig)
    (rest : list ReaderNext) (s : PulsarHandler) :
  topicsLock s = false ->
  json_Unmarshal payload = inl doc ->
  topics (snd (dbListener None (Next_msg payload :: rest) s))
  = foldRecord doc (topics s).
Proof.
  intros Hlock Hdoc.
  rewrite (dbListener_folds_first_only _ _ Hlock). simpl.
  rewrite Hdoc. reflexivity.
Qed.

(** X17. A successful write adds one message to the log.  When the
    listener, started with the lock free on the store that the write has
    left, reads the payload of that message first, it folds the document
    that [json.Unmarshal] makes of the payload, whatever it is.  If this is
    the document that the write has encoded (the one cached by [Create] or
    [Update], or, in every state of the store, the tombstone of the
    document evicted by [DeleteByKey]), the cache is left as the write has
    left it, but for a document written by [Create] or [Update] with status
    Deleted, which the write caches and the listener evicts. *)
Theorem own_record_folds_to_same_cache (now : time_Time) (send : option error)
    (functionCfg : FunctionConfig) (key : string) (s : PulsarHandler) :
  topicsLock s = false ->
  (forall r,
     r = Create now send functionCfg s \/ r = Update now send functionCfg s ->
     snd (fst r) = None ->
     exists cached msg,
       topics (snd r) !! fst (fst r) = Some cached
       /\ json_Marshal cached = inl (msg_Payload msg)
       /\ producer (snd r) = (producer s ++ [msg])%list
       /\ forall doc rest,
            json_Unmarshal (msg_Payload msg) = inl doc ->
            let after :=
              snd (dbListener None (Next_msg (msg_Payload msg) :: rest) (snd r)) in
            topics after = foldRecord doc (topics (snd r))
            /\ (doc = cached -> FunctionStatus cached <> Deleted ->
                topics after = topics (snd r))
            /\ (doc = cached -> FunctionStatus cached = Deleted ->
                topics after = delete (fst (fst r)) (topics (snd r))
                /\ topics after !! fst (fst r) = None))
  /\ (reachable s ->
      forall v,
        topics s !! key = Some v ->
        snd (fst (DeleteByKey send key s)) = None ->
        let s' := snd (DeleteByKey send key s) in
        exists tombstone msg,
          copy_with_status Deleted v tombstone
          /\ json_Marshal tombstone = inl (msg_Payload msg)
          /\ producer s' = (producer s ++ [msg])%list
          /\ forall doc rest,
               json_Unmarshal (msg_Payload msg) = inl doc ->
               let after :=
                 snd (dbListener None (Next_msg (msg_Payload msg) :: rest) s') in
               topics after = foldRecord doc (topics s')
               /\ (doc = tombstone -> topics after = topics s')).
Proof.
  intros Hlock. split.
  - intros r Hr Hok.
    assert (Hwritten :
      exists doc data,
        fst (fst r) = fc_ID doc
        /\ json_Marshal doc = inl data
        /\ topics (snd r) = <[fc_ID doc := doc]> (topics s)
        /\ producer (snd r)
           = (producer s ++ [{| msg_Payload := data; msg_Key := fc_ID doc |}])%list
        /\ topicsLock (snd r) = topicsLock s).
    { destruct (successful_write_caches_what_it_logs_aux now send functionCfg s)
        as [Hc Hu].
      destruct Hr as [-> | ->];
        [destruct (Hc Hok) as (d & data & _ & Hrest)
        |destruct (Hu Hok) as (d & data & _ & Hrest)];
        exists d, data; exact Hrest. }
    destruct Hwritten as (cached & data & Hk & Hdata & Ht & Hp & Hl).
    exists cached, {| msg_Payload := data; msg_Key := fc_ID cached |}.
    assert (Hcached : topics (snd r) !! fst (fst r) = Some cached).
    { rewrite Ht, Hk. apply lookup_insert_eq. }
    split; [exact Hcached|]. split; [exact Hdata|]. split; [exact Hp|].
    intros doc rest Hdoc after. subst after. simpl msg_Payload in *.
    rewrite (dbListener_folds_decoded data doc rest (snd r))
      by (rewrite ?Hl; assumption).
    split; [reflexivity|].
    destruct (foldRecord_cases cached (topics (snd r))) as [[Hs Hf]|[Hs Hf]].
    + split; [|intros _ Hd; contradiction].
      intros -> _. rewrite Hf, <- Hk. apply insert_id, Hcached.
    + split; [intros _ Hd; contradiction|].
      intros -> _. rewrite Hf, <- Hk.
      split; [reflexivity|apply lookup_delete_eq].
  - intros Hreach v Hv.
    pose proof (reachable_keyed_by_ID s Hreach _ _ Hv) as Hid.
    unfold DeleteByKey. rewrite Hv.
    destruct (json_Marshal (set_FunctionStatus Deleted v)) as [data|]
      eqn:Hdata; [|discriminate].
    destruct send; [discriminate|]. intros _.
    cbn [snd fst]. unfold set_topics, sent.
    cbn [topics producer topicsLock fc_ID set_FunctionStatus]. rewrite Hid.
    exists (set_FunctionStatus Deleted v),
      {| msg_Payload := data; msg_Key := key |}.
    split; [apply copy_with_status_assigned; reflexivity|].
    split; [exact Hdata|]. split; [reflexivity|].
    intros doc rest Hdoc. cbn [msg_Payload] in *.
    rewrite (dbListener_folds_decoded data doc rest) by (cbn; assumption).
    split; [reflexivity|].
    intros ->. unfold foldRecord. simpl. rewrite Hid. apply delete_delete_eq.
Qed.

(** X18. Whatever the order of the visit, [Load] returns no error and as
    many pointers as the cache has documents; all are the address of the one
    loop variable, so that each refers to the document visited last. *)
Theorem Load_pointers (s : PulsarHandler)
    (visit : list (string * FunctionConfig)) :
  range_order s visit ->
  snd (Load visit) = None
  /\ length (fst (fst (Load visit))) = size (topics s)
  /\ (forall p, In p (fst (fst (Load visit))) -> p = 0%nat)
  /\ (forall k doc d,
        last visit = Some (k, doc) -> In d (Load_documents visit) ->
        d = Some doc /\ topics s !! k = Some doc)
  /\ (topics s = ∅ -> fst (fst (Load visit)) = []).
Proof.
  intros Horder.
  assert (Hres : fst (fst (Load visit)) = replicate (length visit) 0%nat).
  { unfold Load. simpl. rewrite Load_loop_results. reflexivity. }
  assert (Hlen : length visit = size (topics s)).
  { unfold range_order in Horder. rewrite Horder. apply length_map_to_list. }
  split; [reflexivity|]. rewrite Hres. split; [|split; [|split]].
  - rewrite length_replicate. exact Hlen.
  - intros p Hp. apply list_elem_of_In, elem_of_replicate in Hp as [-> _].
    reflexivity.
  - intros k doc d Hlast Hin.
    rewrite (Load_documents_last _ _ _ Hlast) in Hin.
    apply list_elem_of_In, elem_of_replicate in Hin as [-> _].
    split; [reflexivity|].
    apply elem_of_map_to_list. unfold range_order in Horder.
    rewrite <- Horder. apply last_Some in Hlast as [pre ->].
    apply elem_of_app. right. apply list_elem_of_singleton. reflexivity.
  - intros Hempty. rewrite Hlen, Hempty, map_size_empty. reflexivity.
Qed.

End db_further.

(* ===================================================================== *)
(** * Further properties: the listener                                    *)
(* ===================================================================== *)

Section listener_further.

Context `{GoLibrary} `{PackageDb}.

Lemma dbListener_loop_lock (stream : list ReaderNext) :
  forall (deferred : nat) (s : PulsarHandler),
  (deferred = 0%nat /\ topicsLock s = false)
  \/ (deferred = 1%nat /\ topicsLock s = true) ->
  let r := dbListener_loop stream deferred s in
  fst r <> Fatal
  /\ (forall e, fst r = Terminated e -> topicsLock (snd r) = false)
  /\ (fst r = Blocked -> topicsLock (snd r) = true)
  /\ (fst r = Reading ->
      (topicsLock (snd r) = true
       <-> deferred = 1%nat \/ is_Some (first_decoded stream))).
Proof.
  induction stream as [|[payload|err] rest IH]; intros deferred s Hinv; simpl.
  - repeat split; try discriminate.
    + intros Hl. destruct Hinv as [[_ Hf]|[Hd _]]; [congruence|auto].
    + intros [Hd|[d Hd]]; [|discriminate].
      destruct Hinv as [[Hz _]|[_ Hl]]; [congruence|exact Hl].
  - destruct (json_Unmarshal payload) as [doc|_]; [|apply IH, Hinv].
    destruct Hinv as [[-> Hl]|[-> Hl]]; rewrite Hl; simpl.
    + specialize (IH 1%nat
        (set_topics (foldRecord doc (topics (set_topicsLock true s)))
           (set_topicsLock true s))).
      destruct IH as (Hf & Ht & Hb & Hr); [right; auto|].
      repeat split; auto. intros _. apply Hr; auto.
    + repeat split; try discriminate; auto.
  - destruct Hinv as [[-> Hl]|[-> Hl]]; simpl; rewrite ?Hl; simpl;
      repeat split; try discriminate; auto.
Qed.

(** X19. Started with the lock free, [dbListener] never unlocks an unlocked
    mutex; when it returns, after an error of the reader or of its creation,
    the lock is free again; when it is blocked it holds the lock; and while
    it waits for the reader it holds the lock exactly if a record has
    decoded. *)
Theorem dbListener_lock (createReader : option error)
    (stream : list ReaderNext) (s : PulsarHandler) :
  topicsLock s = false ->
  let r := dbListener createReader stream s in
  fst r <> Fatal
  /\ (forall e, fst r = Terminated e -> topicsLock (snd r) = false)
  /\ (fst r = Blocked -> topicsLock (snd r) = true)
  /\ (fst r = Reading ->
      (topicsLock (snd r) = true <-> is_Some (first_decoded stream))).
Proof.
  intros Hl. unfold dbListener. destruct createReader as [e|]; simpl.
  - repeat split; try discriminate; auto.
  - destruct (dbListener_loop_lock stream 0%nat s) as (Hf & Ht & Hb & Hr);
      [left; auto|].
    split; [exact Hf|]. split; [exact Ht|]. split; [exact Hb|].
    intros Hreading. specialize (Hr Hreading). rewrite Hr.
    split; [intros [Hd|Hd]; [discriminate|exact Hd]|auto].
Qed.

Lemma dbListener_loop_filter (stream : list ReaderNext) :
  forall (deferred : nat) (s : PulsarHandler),
  dbListener_loop (List.filter decodes stream) deferred s
  = dbListener_loop stream deferred s.
Proof.
  induction stream as [|[payload|err] rest IH]; intros deferred s; simpl.
  - reflexivity.
  - destruct (json_Unmarshal payload) as [doc|e] eqn:Hdoc; simpl.
    + rewrite Hdoc. destruct (topicsLock s); [reflexivity|apply IH].
    + apply IH.
  - reflexivity.
Qed.

(** X20. The listener never writes to the log, and the messages that do not
    decode count for nothing: a run on a stream and a run on the same
    stream without them end in the same way, in the same state. *)
Theorem dbListener_skips_undecodable (createReader : option error)
    (stream : list ReaderNext) (s : PulsarHandler) :
  producer (snd (dbListener createReader stream s)) = producer s
  /\ dbListener createReader (List.filter decodes stream) s
     = dbListener createReader stream s.
Proof.
  unfold dbListener. destruct createReader as [e|]; [auto|].
  split; [apply dbListener_loop_producer|apply dbListener_loop_filter].
Qed.

(** X21. Started with the lock free, a run of [dbListener] leaves in the
    cache the fold of the first record that decodes before the reader
    fails, and of no other record, however many follow; if the reader
    cannot be created the run returns that error and the store is as it
    was. *)
Theorem dbListener_folds_one_record (createReader : option error)
    (stream : list ReaderNext) (s : PulsarHandler) :
  topicsLock s = false ->
  topics (snd (dbListener createReader stream s))
  = match run_record (createReader, stream) with
    | Some doc => foldRecord doc (topics s)
    | None => topics s
    end
  /\ (forall e, createReader = Some e ->
        dbListener createReader stream s = (Terminated e, s)).
Proof.
  intros Hl. split.
  - destruct createReader as [e|]; [reflexivity|].
    apply dbListener_folds_first_only, Hl.
  - intros e ->. reflexivity.
Qed.

Lemma dbListener_loop_fails_locked (stream : list ReaderNext) :
  forall (m : gmap string FunctionConfig) (p : list ProducerMessage),
  fails_before_second true stream = true ->
  exists e,
    dbListener_loop stream 1
      {| topics := m; topicsLock := true; producer := p |}
    = (Terminated e, {| topics := m; topicsLock := false; producer := p |}).
Proof.
  induction stream as [|[payload|err] rest IH]; intros m p Hf; simpl in *.
  - discriminate.
  - destruct (json_Unmarshal payload) as [doc|_]; [discriminate|]. apply IH, Hf.
  - exists err. reflexivity.
Qed.

Lemma dbListener_fails (run : option error * list ReaderNext)
    (m : gmap string FunctionConfig) (p : list ProducerMessage) :
  run_fails run = true ->
  exists e,
    dbListener (fst run) (snd run)
      {| topics := m; topicsLock := false; producer := p |}
    = (Terminated e,
       {| topics := match run_record run with
                    | Some doc => foldRecord doc m
                    | None => m
                    end;
          topicsLock := false; producer := p |}).
Proof.
  destruct run as [[e|] stream]; simpl.
  - intros _. exists e. reflexivity.
  - induction stream as [|[payload|err] rest IH]; simpl.
    + discriminate.
    + destruct (json_Unmarshal payload) as [doc|_]; [|exact IH].
      intros Hf. apply dbListener_loop_fails_locked, Hf.
    + intros _. exists err. reflexivity.
Qed.

(** X22. When every start of the listener ends with an error of its reader
    before a second record decodes, the supervisor starts them one after the
    other: the cache is the fold of the one record of each start, in the
    order of the starts, the lock is free and the log is as it was. *)
Theorem supervisor_folds_one_record_per_start
    (runs : list (option error * list ReaderNext)) (s : PulsarHandler) :
  topicsLock s = false ->
  forallb run_fails runs = true ->
  topics (snd (supervisor runs s)) = fold_runs runs (topics s)
  /\ topicsLock (snd (supervisor runs s)) = false
  /\ producer (snd (supervisor runs s)) = producer s.
Proof.
  destruct s as [m l p]. simpl. intros ->. revert m.
  induction runs as [|run later IH]; intros m Hall; simpl in Hall.
  - auto.
  - apply andb_true_iff in Hall as [Hrun Hlater].
    destruct (dbListener_fails run m p Hrun) as [e He].
    destruct run as [createReader stream]. simpl in He.
    cbn [supervisor]. rewrite He.
    specialize (IH (match run_record (createReader, stream) with
                    | Some doc => foldRecord doc m
                    | None => m
                    end) Hlater).
    destruct later as [|run' later']; [simpl; auto|].
    exact IH.
Qed.

End listener_further.

(* ===================================================================== *)
(** * Further properties: keys of topics                                  *)
(* ===================================================================== *)

Lemma string_app_nil_r (a : string) : a ++ "" = a.
Proof.
  induction a as [|x a IH]; [reflexivity|].
  change (String x (a ++ "") = String x a). rewrite IH. reflexivity.
Qed.

(** X23. The key does not tell where the first name ends: moving the end of
    the first name to the front of the second gives another pair of names
    with the same key. *)
Theorem GenKey_pairs_with_one_key (a b c : string) :
  b <> "" ->
  (a ++ b, c) <> (a, b ++ c)
  /\ GenKey (a ++ b) c = GenKey a (b ++ c)
  /\ GetKeyFromNames (a ++ b) c = GetKeyFromNames a (b ++ c).
Proof.
  intros Hb.
  assert (Hkey : GenKey (a ++ b) c = GenKey a (b ++ c)).
  { unfold GenKey. rewrite string_app_assoc. reflexivity. }
  split; [|split; [exact Hkey|unfold GetKeyFromNames; rewrite Hkey; reflexivity]].
  intros [= Heq _]. apply Hb.
  rewrite <- (string_app_nil_r a) in Heq at 2.
  apply String.app_inj in Heq. exact Heq.
Qed.

Section topic_keys.

Context `{GoLibrary}.

(** X24. [NewTopicConfig] never fails, and the key it stores in the topic is
    the key [ValidateTopicConfig] returns for every topic with the same full
    name and Pulsar URL whose webhooks pass, whatever its tenant, token,
    notes, status and webhooks; the new topic itself has no webhooks and
    passes. *)
Theorem NewTopicConfig_key (now1 now2 : time_Time)
    (topicFullName pulsarURL token : string) :
  let cfg := fst (NewTopicConfig now1 now2 topicFullName pulsarURL token) in
  snd (NewTopicConfig now1 now2 topicFullName pulsarURL token) = None
  /\ Key cfg = GenKey topicFullName pulsarURL
  /\ ValidateTopicConfig cfg = (Key cfg, None)
  /\ (forall top,
        TopicFullName top = topicFullName ->
        PulsarURL top = pulsarURL ->
        ValidateWebhookConfig (Webhooks top) = None ->
        ValidateTopicConfig top = (Key cfg, None)).
Proof.
  simpl. repeat split.
  intros top Hname Hurl Hok. unfold ValidateTopicConfig.
  rewrite Hok, Hname, Hurl. reflexivity.
Qed.

End topic_keys.

(* ===================================================================== *)
(** * The further properties on examples                                  *)
(* ===================================================================== *)

Lemma ValidateWebhookConfig_accepts_iff_witness :
  Forall (well_formed (H := ascii_library)) shared_and_exclusive
  /\ ~ collision (H := ascii_library) shared_and_exclusive.
Proof.
  apply (proj1 (ValidateWebhookConfig_accepts_iff (H := ascii_library)
                  shared_and_exclusive)).
  vm_compute. reflexivity.
Defined.

Lemma ValidateWebhookConfig_order_and_removal_witness :
  ValidateWebhookConfig (H := ascii_library) [exclusive_sub2; shared_sub1] = None.
Proof.
  apply (proj1 (proj1 (ValidateWebhookConfig_order_and_removal
                         (H := ascii_library)
                         shared_and_exclusive [exclusive_sub2; shared_sub1])
                  (perm_swap _ _ _))).
  vm_compute. reflexivity.
Defined.

Lemma ValidateWebhookConfig_error_about_a_webhook_witness :
  exists pre wh post,
    second_not_a_url = (pre ++ wh :: post)%list
    /\ ((InvalidURL "not-a-url" = InvalidURL (URL wh)
         /\ IsURL (H := ascii_library) (URL wh) = false)
        \/ (InvalidURL "not-a-url" = MissingSubscription
            /\ strings_TrimSpace (H := ascii_library) (Subscription wh) = "")
        \/ (InvalidURL "not-a-url"
            = UnsupportedSubscriptionType (SubscriptionType wh)
            /\ ~ known_type (H := ascii_library) (SubscriptionType wh))
        \/ (InvalidURL "not-a-url"
            = DuplicateExclusiveSubscription (Subscription wh)
            /\ resolves_exclusive (H := ascii_library) wh
            /\ seen_exclusive (H := ascii_library) pre (Subscription wh))
        \/ (InvalidURL "not-a-url" = InvalidInitialPosition (InitialPosition wh)
            /\ ~ known_position (H := ascii_library) (InitialPosition wh))).
Proof.
  apply (ValidateWebhookConfig_error_about_a_webhook (H := ascii_library)
           second_not_a_url (InvalidURL "not-a-url")).
  vm_compute. reflexivity.
Defined.

Lemma ValidateWebhookConfig_append_witness :
  ValidateWebhookConfig (H := ascii_library) [shared_sub1] = None
  /\ well_formed (H := ascii_library) exclusive_sub2
  /\ ~ (resolves_exclusive (H := ascii_library) exclusive_sub2
        /\ seen_exclusive (H := ascii_library) [shared_sub1]
             (Subscription exclusive_sub2)).
Proof.
  apply (proj1 (ValidateWebhookConfig_append (H := ascii_library)
                  [shared_sub1] exclusive_sub2)).
  vm_compute. reflexivity.
Defined.

Lemma names_whatever_the_case_witness :
  fst (GetSubscriptionType (H := ascii_library) "KeyShared")
  = fst (GetSubscriptionType (H := ascii_library) "keyshared")
  /\ StringToStatus (H := ascii_library) "DELETED"
     = StringToStatus (H := ascii_library) "deleted".
Proof.
  split.
  - apply (names_whatever_the_case (H := ascii_library) "KeyShared" "keyshared").
    repeat split; reflexivity.
  - apply (names_whatever_the_case (H := ascii_library) "DELETED" "deleted").
    repeat split; reflexivity.
Defined.

Lemma names_values_witness :
  StringToStatus (H := ascii_library) "paused" = Deactivated.
Proof.
  apply (proj2 (proj2 (proj2 (names_values (H := ascii_library) "paused"))));
    vm_compute; discriminate.
Defined.

Lemma NewWebhookConfig_accepted_witness :
  ValidateWebhookConfig (H := ascii_library)
    [NewWebhookConfig "k1" 1600000000000000000 10 11 "https://example.com/hook"]
  = None.
Proof.
  apply (proj1 (NewWebhookConfig_accepted (H := ascii_library)
                  "k1" 1600000000000000000 0 10 11 0 0
                  "https://example.com/hook" "")).
  vm_compute. reflexivity.
Defined.

Lemma GetEffectiveRoutes_by_mode_witness :
  GetEffectiveRoutes (H := path_routes) "receiver"
  = ["/metrics"; "/v1/firehose"].
Proof.
  apply (proj2 (proj2 (proj2 (proj2 (proj2
    (GetEffectiveRoutes_by_mode (H := path_routes) "receiver")))))).
  - reflexivity.
  - discriminate.
Defined.

Lemma failed_write_keeps_store_witness :
  snd (Create (H0 := names_db) 200 None fn1_request store_fn1) = store_fn1.
Proof.
  apply (proj1 (failed_write_keeps_store (H := ascii_library) (H0 := names_db)
                  200 None fn1_request "" "" "" store_fn1)).
  vm_compute. discriminate.
Defined.

Lemma successful_write_caches_what_it_logs_witness :
  exists doc,
    same_content doc fn1_request
    /\ fst (fst (Create (H0 := names_db) 100 None fn1_request store_Init))
       = fc_ID doc.
Proof.
  destruct (proj1 (successful_write_caches_what_it_logs (H := ascii_library) (H0 := names_db)
                     100 None fn1_request store_Init))
    as (doc & data & Hsame & Hkey & _).
  - vm_compute. reflexivity.
  - exists doc. split; [exact Hsame|exact Hkey].
Defined.

Lemma reachable_log_keyed_by_ID_witness :
  log_keyed_by_ID (producer store_fn1).
Proof.
  apply (reachable_log_keyed_by_ID (H := ascii_library) (H0 := names_db) store_fn1).
  apply reachable_Create, (reachable_Init None None).
Defined.

Lemma GetByKey_own_ID_witness :
  fc_ID (fst (GetByKey (H0 := names_db) key_fn1 store_fn1)) = key_fn1.
Proof.
  apply (proj1 (proj2 (GetByKey_own_ID (H := ascii_library) (H0 := names_db) key_fn1 store_fn1
                         (reachable_Create _ _ _ _
                            (reachable_Init None None))))).
  vm_compute. reflexivity.
Defined.

Lemma Create_then_GetByKey_witness :
  GetByKey (H0 := names_db) key_fn1
    (snd (Create (H0 := names_db) 100 None fn1_request store_Init))
  = (fn1_created, None).
Proof.
  refine (proj1 (proj2
    (Create_then_GetByKey (H := ascii_library) (H0 := names_db) 100 fn1_request key_fn1
       fn1_created store_Init _ _ _))).
  - vm_compute. reflexivity.
  - reflexivity.
  - reflexivity.
Defined.

Lemma Create_then_DeleteByKey_witness :
  topics (snd (DeleteByKey (H0 := names_db) None key_fn1
                 (snd (Create (H0 := names_db) 100 None fn1_request store_Init))))
  = topics store_Init
  /\ log_statuses
       (producer
          (snd (DeleteByKey (H0 := names_db) None key_fn1
                  (snd (Create (H0 := names_db) 100 None fn1_request
                          store_Init)))))
     = [(key_fn1, 0%Z); (key_fn1, 3%Z)].
Proof.
  assert (Htomb : copy_with_status Deleted
                    (set_UpdatedAt 100 (set_CreatedAt 100
                       (set_ID key_fn1 fn1_request)))
                    fn1_tombstone).
  { unfold copy_with_status. simpl. repeat split. }
  destruct (Create_then_DeleteByKey (H := ascii_library) (H0 := names_db)
              100 fn1_request key_fn1 fn1_tombstone fn1_created fn1_tombstone
              store_Init)
    as (_ & Hcache & Hlog & _); [| | |exact Htomb| |].
  - vm_compute. reflexivity.
  - reflexivity.
  - reflexivity.
  - reflexivity.
  - split; [exact Hcache|].
    rewrite Hlog. vm_compute. reflexivity.
Defined.

Lemma DeleteByKey_only_its_key_witness :
  DeleteByKey (H0 := names_db) None key_fn1
    (snd (DeleteByKey (H0 := names_db) None key_fn1 store_fn1))
  = (("", Some (Errorf "NotFound")),
     snd (DeleteByKey (H0 := names_db) None key_fn1 store_fn1)).
Proof.
  refine (proj2 (proj2
    (DeleteByKey_only_its_key (H := ascii_library) (H0 := names_db) None None key_fn1 store_fn1
       (reachable_Create _ _ _ _ (reachable_Init None None)) _))).
  vm_compute. reflexivity.
Defined.

Lemma foldRecord_lookup_witness :
  foldRecord fn1_activated_record ∅ !! key_fn1 = Some fn1_activated_record.
Proof.
  apply (proj1 (foldRecord_lookup fn1_activated_record "" ∅)).
  vm_compute. discriminate.
Defined.

Lemma own_record_folds_to_same_cache_witness :
  log_statuses (producer store_fn1) = [(key_fn1, 0%Z)]
  /\ json_Unmarshal (GoLibrary := ascii_library) fn1_cached = inl fn1_cached
  /\ topics (snd (dbListener None [Next_msg (H := ascii_library) fn1_cached]
                    store_fn1))
     = topics store_fn1.
Proof.
  destruct (proj1 (own_record_folds_to_same_cache (H := ascii_library)
                     (H0 := names_db) 100 None fn1_request "" store_Init
                     eq_refl)
              (Create (H0 := names_db) 100 None fn1_request store_Init)
              (or_introl eq_refl) eq_refl)
    as (cached & msg & Hcached & Hdata & Hlog & Hfold).
  assert (Hsame : cached = fn1_cached).
  { apply (inj Some). rewrite <- Hcached. vm_compute. reflexivity. }
  assert (Hpayload : msg_Payload msg = fn1_cached).
  { cbn in Hdata. injection Hdata as <-. exact Hsame. }
  rewrite Hpayload in Hfold.
  split; [vm_compute; reflexivity|]. split; [reflexivity|].
  apply (proj1 (proj2 (Hfold fn1_cached [] eq_refl))).
  - symmetry. exact Hsame.
  - rewrite Hsame. vm_compute. discriminate.
Defined.

Lemma Load_pointers_witness :
  length (fst (fst (Load [(key_fn1, fn1_created)]))) = size (topics store_fn1).
Proof.
  refine (proj1 (proj2 (Load_pointers (H := ascii_library) store_fn1 [(key_fn1, fn1_created)] _))).
  unfold range_order.
  assert (Htopics : topics store_fn1 = <[key_fn1 := fn1_created]> ∅).
  { unfold store_fn1, Create, fn1_request.
    cbn [getKey names_db GetKeyFromNames function_doc fc_Tenant fc_Name
         set_FunctionStatus set_ID set_Tenant].
    destruct key_fn1_fn2 as [-> _]. reflexivity. }
  rewrite Htopics, map_to_list_insert by apply lookup_empty.
  rewrite map_to_list_empty. reflexivity.
Defined.

Lemma dbListener_lock_witness :
  fst (dbListener None fn1_stream store_Init) <> Fatal.
Proof.
  apply (proj1 (dbListener_lock (H := ascii_library) None fn1_stream store_Init eq_refl)).
Defined.

Lemma dbListener_folds_one_record_witness :
  topics (snd (dbListener None fn1_stream store_Init))
  = match run_record (None, fn1_stream) with
    | Some doc => foldRecord doc (topics store_Init)
    | None => topics store_Init
    end.
Proof.
  apply (proj1 (dbListener_folds_one_record (H := ascii_library) None fn1_stream store_Init eq_refl)).
Defined.

Lemma supervisor_folds_one_record_per_start_witness :
  topics (snd (supervisor two_failing_runs store_Init))
  = fold_runs two_failing_runs (topics store_Init).
Proof.
  apply (proj1 (supervisor_folds_one_record_per_start (H := ascii_library)
                  two_failing_runs store_Init eq_refl eq_refl)).
Defined.

Lemma GenKey_pairs_with_one_key_witness :
  GenKey "t1" "fn1" = GenKey "t" "1fn1".
Proof.
  refine (proj1 (proj2 (GenKey_pairs_with_one_key "t" "1" "fn1" _))).
  discriminate.
Defined.

Lemma NewTopicConfig_key_witness :
  ValidateTopicConfig (H := ascii_library) events_topic
  = (Key (fst (NewTopicConfig 1 2 "persistent://t1/ns/events"
                 "pulsar://broker:6650" "token")), None).
Proof.
  apply (proj2 (proj2 (proj2
    (NewTopicConfig_key (H := ascii_library) 1 2 "persistent://t1/ns/events"
       "pulsar://broker:6650" "token"))) events_topic);
    reflexivity.
Defined.
